(** * Quiz session engine and persistence protocol: a shallow embedding

    The development follows the TypeScript sources of the quiz application:

    - [src/data/quizData.ts]              the course / question catalog,
    - [src/hooks/useQuizStateManagement.ts] the identity resolver and the
                                           save / load protocol over
                                           [localStorage],
    - [src/components/Quiz.tsx]           the session engine (resume,
                                           initialise, finish),
    - [src/App.tsx]                       the completed-attempt history,
    - the [shuffleArray] utility.

    Conventions.  JavaScript numbers that the modelled code uses as
    indices, identifiers and epoch milliseconds are integers and are
    modelled by [Z]; the model is exact for safe integers (magnitude at
    most [2^53 - 1]), and a statement that depends on how a number prints
    says so.  A JavaScript string is a [string]; each [ascii]
    stands for one UTF-16 code unit.  [null] / [undefined] are [None] where
    a value may be absent.  A [Set<string>] is the list of its members in
    insertion order. *)

From Stdlib Require Import ZArith QArith Qround Ascii String.
From stdpp Require Import base numbers option list strings gmap pretty sorting.

Local Open Scope Z_scope.
Local Open Scope string_scope.
Local Open Scope list_scope.

(** ** Host values *)

Module JS.

(** The values [JSON.parse] can produce.  An object is the list of its
    own properties. *)
#[warnings="-register-all"]
Inductive json :=
| JNull
| JBool (b : bool)
| JNum (n : Z)
| JStr (s : string)
| JArr (items : list json)
| JObj (props : list (string * json)).

(** [String(v)]. *)
Class ToString (A : Type) := String_ : A → string.

Fixpoint join (sep : string) (parts : list string) : string :=
  match parts with
  | [] => ""
  | [p] => p
  | p :: rest => p +:+ sep +:+ join sep rest
  end.

(** [String] on parsed JSON, where it returns: arrays print as their
    elements joined by a comma, with [null] elements printed as the empty
    string; an object without an own [toString] property prints through
    [Object.prototype.toString].  Where [String] throws ([String_throws]
    below) the value computed here is not used. *)
Fixpoint json_to_string (v : json) : string :=
  match v with
  | JNull => "null"
  | JBool true => "true"
  | JBool false => "false"
  | JNum n => pretty n
  | JStr s => s
  | JArr items =>
      join "," (map (λ x, match x with
                          | JNull => ""
                          | _ => json_to_string x
                          end) items)
  | JObj _ => "[object Object]"
  end.

#[export] Instance json_ToString : ToString json := json_to_string.

(** Truthiness of a parsed value ([parsed && ...]). *)
Definition truthy (v : json) : bool :=
  match v with
  | JNull => false
  | JBool b => b
  | JNum n => negb (n =? 0)%Z
  | JStr s => negb (String.eqb s "")
  | JArr _ | JObj _ => true
  end.

(** [v.name] for a property name that no array or string carries (such
    as [currentIndex]); [None] is [undefined]. *)
Fixpoint assoc (name : string) (props : list (string * json)) : option json :=
  match props with
  | [] => None
  | (k, v) :: rest => if String.eqb k name then Some v else assoc name rest
  end.

Definition prop (v : json) (name : string) : option json :=
  match v with
  | JObj props => assoc name props
  | _ => None
  end.

(** [String(v)] throws a [TypeError].  A parsed object with an own
    [toString] property has no callable [toString] (a parsed value is
    never a function), and [valueOf] returns the object itself: the
    conversion to a primitive fails.  An array converts each element that
    is not [null], so it throws when one of them does. *)
Fixpoint String_throws (v : json) : bool :=
  match v with
  | JObj props =>
      match assoc "toString" props with
      | Some _ => true
      | None => false
      end
  | JArr items => existsb String_throws items
  | _ => false
  end.

(** [v.length]. *)
Definition length_prop (v : json) : option Z :=
  match v with
  | JArr items => Some (Z.of_nat (length items))
  | JStr s => Some (Z.of_nat (String.length s))
  | JObj props =>
      match assoc "length" props with
      | Some (JNum n) => Some n
      | _ => None
      end
  | _ => None
  end.

(** SameValueZero on parsed values: primitives compare by value, two
    parsed arrays or objects are never the same object. *)
Definition same_value_zero (a b : json) : bool :=
  match a, b with
  | JNull, JNull => true
  | JBool x, JBool y => Bool.eqb x y
  | JNum x, JNum y => (x =? y)%Z
  | JStr x, JStr y => String.eqb x y
  | _, _ => false
  end.

End JS.

Import JS.

(** ** The catalog ([src/data/quizData.ts], [src/types/quiz.ts]) *)

Module Catalog.

(** [id: string | number].  A numeric id is an integer. *)
Inductive ident :=
| IdNum (n : Z)
| IdStr (s : string).

(** [String(id)].  A number prints as its decimal digits when it is a
    safe integer; a larger magnitude prints rounded to its shortest
    round-trip digits, and from [1e21] on in exponent notation, which this
    printer does not follow: a statement about the printed form of a
    numeric id is made for safe integers. *)
#[export] Instance ident_ToString : ToString ident :=
  λ i, match i with IdNum n => pretty n | IdStr s => s end.

Record QuizItem := {
  id : ident;
  topic : option string;
  question : string;
  options : list (string * string);
  correctAnswer : list string
}.

Record Course := {
  course_id : string;
  title : string;
  quizItems : list QuizItem;
  topics : list string
}.

(** [Array.prototype.find]. *)
Fixpoint Array_find {A} (p : A → bool) (l : list A) : option A :=
  match l with
  | [] => None
  | x :: rest => if p x then Some x else Array_find p rest
  end.

(** The catalog is the list of courses that [loadCourses()] caches; every
    query takes it as its first argument.  A missing ([undefined]) course
    id is [None]. *)
Definition getCourseById (courses : list Course) (cid : option string)
  : option Course :=
  match cid with
  | None => None
  | Some c =>
      if String.eqb c "" then None
      else Array_find (λ course, String.eqb (course_id course) c) courses
  end.

Definition getQuizItems (courses : list Course)
    (courseId : string) (topicId : option string) : list QuizItem :=
  match getCourseById courses (Some courseId) with
  | None => []
  | Some course =>
      match topicId with
      | Some t =>
          if String.eqb t "" then quizItems course
          else filter (λ item, topic item = Some t) (quizItems course)
      | None => quizItems course
      end
  end.

Definition getQuestionById {A} `{ToString A} (courses : list Course)
    (courseId : option string) (questionId : A) : option QuizItem :=
  match courseId with
  | None => None
  | Some c =>
      if String.eqb c "" then None
      else match getCourseById courses (Some c) with
           | None => None
           | Some course =>
               Array_find (λ item,
                       String.eqb (String_ (id item)) (String_ questionId))
                    (quizItems course)
           end
  end.

End Catalog.

Import Catalog.

(** ** The identity resolver ([getQuizStateKey]) *)

Module Identity.

Inductive quiz_type := full | topic_quiz.

Record QuizConfig := {
  courseId : string;
  topicId : option string;
  type : quiz_type
}.

Definition QUIZ_STATE_PREFIX : string := "quizState_".

Definition between (lo hi : nat) (c : ascii) : bool :=
  (lo <=? nat_of_ascii c)%nat && (nat_of_ascii c <=? hi)%nat.

(** The class [[a-zA-Z0-9_-]]. *)
Definition in_key_class (c : ascii) : bool :=
  between 97 122 c || between 65 90 c || between 48 57 c
  || Ascii.eqb c "_" || Ascii.eqb c "-".

(** [s.replace(/[^a-zA-Z0-9_-]/g, '_')]. *)
Fixpoint sanitize (s : string) : string :=
  match s with
  | EmptyString => EmptyString
  | String c rest =>
      String (if in_key_class c then c else "_"%char) (sanitize rest)
  end.

Definition getQuizStateKey (config : option QuizConfig) : option string :=
  match config with
  | None => None
  | Some config =>
      if String.eqb (courseId config) "" then None
      else
        let topicPart :=
          match topicId config with None => "full" | Some t => t end in
        let safeTopicPart := sanitize topicPart in
        Some (QUIZ_STATE_PREFIX +:+ courseId config +:+ "_" +:+ safeTopicPart)
  end.

End Identity.

Import Identity.

(** ** Shared types ([src/types/quiz.ts]) *)

Module Types.

(** An in-memory answer: [null], an option key, a stored array of keys
    or a [Set] of keys (its members in insertion order). *)
Inductive Answer :=
| ANull
| AStr (s : string)
| AArr (keys : list string)
| ASet (members : list string).

Record SavedQuizState := {
  currentIndex : Z;
  userAnswers : list Answer;
  startTime : option Z;
  questionIds : list ident;
  courseId : string;
  topicId : option string;
  checkedAnswers : option (list bool)
}.

Inductive Status := correct | incorrect.

Record AnswerResult := {
  questionId : ident;
  (** [None] is [undefined] (no entry at that index). *)
  userAnswer : option Answer;
  result_correctAnswer : list string;
  isCorrect : bool;
  result_options : list (string * string)
}.

(** [percentage] is a floating-point quotient and is left out. *)
Record QuizResults := {
  score : Z;
  totalQuestions : Z;
  answers : list AnswerResult;
  duration : Z;
  result_questionIds : list ident;
  result_courseId : string;
  result_topicId : option string;
  (** [None]: no numeric timestamp.  In the result handed to
      [handleAddResult] this is a missing or a non-numeric timestamp alike
      (the code tests [typeof ... === 'number'] only).  In an entry of the
      history it is a missing one ([null] or [undefined], the case of
      [?? 0]); an entry with a present non-numeric timestamp, which the
      declared type [timestamp: number] excludes and whose order under
      [sort] follows the coercion of the subtraction, is not represented,
      and the statements about the history are made for entries with
      numeric timestamps. *)
  timestamp : option Z
}.

(** [new Set(items)]: members in order of first occurrence. *)
Fixpoint Set_add_all {A} (same : A → A → bool) (acc items : list A) : list A :=
  match items with
  | [] => acc
  | x :: rest =>
      Set_add_all same (if existsb (same x) acc then acc else acc ++ [x]) rest
  end.

Definition new_Set {A} (same : A → A → bool) (items : list A) : list A :=
  Set_add_all same [] items.

(** [set.has(key)] on a set of strings. *)
Definition Set_has (members : list string) (key : string) : bool :=
  existsb (String.eqb key) members.

(** [isMultiSelect] ([Quiz.tsx]) and the same test inlined in
    [loadQuizState]. *)
Definition isMultiSelect (correctAnswers : list string) : bool :=
  (1 <? length correctAnswers)%nat.

End Types.

Import Types.

(** ** The durable store and the state manager
       ([src/hooks/useQuizStateManagement.ts]) *)

Module Manager.

(** A stored string, up to what [JSON.parse] makes of it: the text of a
    JSON value, or a text that [JSON.parse] rejects. *)
Inductive text :=
| Stringified (v : json)
| Unparsable (raw : string).

Inductive completion (A : Type) :=
| Normal (a : A)
| Throw (message : string).
Arguments Normal {A} a.
Arguments Throw {A} message.

Definition JSON_parse (t : text) : completion json :=
  match t with
  | Stringified v => Normal v
  | Unparsable _ => Throw "SyntaxError"
  end.

Record World := {
  (** [typeof window !== "undefined"]. *)
  window_defined : bool;
  localStorage : gmap string text;
  (** The hook's in-memory index of in-progress quizzes. *)
  inProgressQuizzes : gmap string SavedQuizState
}.

Definition removeItem (key : string) (w : World) : World :=
  {| window_defined := window_defined w;
     localStorage := delete key (localStorage w);
     inProgressQuizzes := inProgressQuizzes w |}.

Definition setItem (key : string) (value : text) (w : World) : World :=
  {| window_defined := window_defined w;
     localStorage := <[key := value]> (localStorage w);
     inProgressQuizzes := inProgressQuizzes w |}.

Definition setInProgressQuizzes
    (f : gmap string SavedQuizState → gmap string SavedQuizState) (w : World)
  : World :=
  {| window_defined := window_defined w;
     localStorage := localStorage w;
     inProgressQuizzes := f (inProgressQuizzes w) |}.

(** [ans instanceof Set ? Array.from(ans) : ans]. *)
Definition answerForStorage (ans : Answer) : Answer :=
  match ans with
  | ASet members => AArr members
  | other => other
  end.

Definition json_of_ident (i : ident) : json :=
  match i with IdNum n => JNum n | IdStr s => JStr s end.

Definition json_of_option {A} (f : A → json) (o : option A) : json :=
  match o with None => JNull | Some a => f a end.

(** [JSON.stringify] of an answer; a [Set] has no enumerable property and
    prints as an empty object. *)
Definition json_of_answer (ans : Answer) : json :=
  match ans with
  | ANull => JNull
  | AStr s => JStr s
  | AArr keys => JArr (JStr <$> keys)
  | ASet _ => JObj []
  end.

(** [JSON.stringify] of a [SavedQuizState]; an [undefined] field is left
    out. *)
Definition json_of_state (s : SavedQuizState) : json :=
  JObj ([ ("currentIndex", JNum (currentIndex s));
          ("userAnswers", JArr (json_of_answer <$> userAnswers s));
          ("startTime", json_of_option JNum (startTime s));
          ("questionIds", JArr (json_of_ident <$> questionIds s));
          ("courseId", JStr (courseId s));
          ("topicId", json_of_option JStr (topicId s)) ]
        ++ match checkedAnswers s with
           | None => []
           | Some flags => [("checkedAnswers", JArr (JBool <$> flags))]
           end).

Definition JSON_stringify (s : SavedQuizState) : text :=
  Stringified (json_of_state s).

Definition saveQuizState (config : QuizConfig) (state : option SavedQuizState)
    (w : World) : World :=
  match getQuizStateKey (Some config) with
  | None => w
  | Some key =>
      if negb (window_defined w) then w
      else
        match state with
        | None =>
            setInProgressQuizzes (delete key) (removeItem key w)
        | Some state =>
            let answersForStorage := answerForStorage <$> userAnswers state in
            let stateToSave :=
              {| currentIndex := currentIndex state;
                 userAnswers := answersForStorage;
                 startTime := startTime state;
                 questionIds := questionIds state;
                 courseId := Identity.courseId config;
                 topicId := Identity.topicId config;
                 checkedAnswers := checkedAnswers state |} in
            setInProgressQuizzes (<[key := state]>)
              (setItem key (JSON_stringify stateToSave) w)
        end
  end.

(** What [loadQuizState] hands back: the parsed object spread, with
    [userAnswers] and [checkedAnswers] replaced. *)
Inductive LoadedAnswer :=
| LNull
| LStr (s : string)
| LSet (members : list json).

Record LoadedState := {
  loaded_parsed : list (string * json);
  loaded_userAnswers : list LoadedAnswer;
  loaded_checkedAnswers : json
}.

Definition is_number (v : option json) : bool :=
  match v with Some (JNum _) => true | _ => false end.

Definition as_array (v : option json) : option (list json) :=
  match v with Some (JArr items) => Some items | _ => None end.

(** The callback of [parsed.userAnswers.map]. *)
Definition restoreStoredAnswer (courses : list Course) (config : QuizConfig)
    (questionIds : list json) (index : nat) (ans : json) : LoadedAnswer :=
  match questionIds !! index with
  | None => LNull
  | Some questionId =>
      let question :=
        getQuestionById courses (Some (Identity.courseId config)) questionId in
      let correctAnswers :=
        match question with Some q => correctAnswer q | None => [] end in
      let isMulti := isMultiSelect correctAnswers in
      match ans with
      | JArr items =>
          if isMulti then LSet (new_Set same_value_zero items) else LNull
      | JStr s => LStr s
      | _ => LNull
      end
  end.

(** [getQuestionById(courseId, questionId)] throws: [find] evaluates
    [String(questionId)] for the first item of the course, so the call
    throws when the course is found, has an item, and [String] throws on
    the id. *)
Definition getQuestionById_throws (courses : list Course)
    (courseId : option string) (questionId : json) : bool :=
  match courseId with
  | None => false
  | Some c =>
      if String.eqb c "" then false
      else match getCourseById courses (Some c) with
           | None => false
           | Some course =>
               match quizItems course with
               | [] => false
               | _ :: _ => String_throws questionId
               end
           end
  end.

(** The body of the [try] block: returns the loaded state or throws.  It
    throws on a value that fails the structural check, and when the
    [map] callback's call of [getQuestionById] throws for one of the
    question ids. *)
Definition parseAndValidate (courses : list Course) (config : QuizConfig)
    (key : string) (serializedState : text) : completion LoadedState :=
  match JSON_parse serializedState with
  | Throw e => Throw e
  | Normal parsed =>
      match truthy parsed && is_number (prop parsed "currentIndex"),
            as_array (prop parsed "userAnswers"),
            as_array (prop parsed "questionIds") with
      | true, Some userAnswers, Some questionIds =>
          if (length questionIds =? length userAnswers)%nat then
            if existsb (getQuestionById_throws courses
                          (Some (Identity.courseId config))) questionIds
            then Throw "TypeError: Cannot convert object to primitive value"
            else
              let userAnswersWithSets :=
                imap (restoreStoredAnswer courses config questionIds)
                     userAnswers in
              let fresh := JArr (replicate (length questionIds) (JBool false)) in
              let checkedAnswersArray :=
                match prop parsed "checkedAnswers" with
                | Some c =>
                    if truthy c
                       && bool_decide
                            (length_prop c
                             = Some (Z.of_nat (length questionIds)))
                    then c else fresh
                | None => fresh
                end in
              Normal {| loaded_parsed :=
                          match parsed with JObj props => props | _ => [] end;
                        loaded_userAnswers := userAnswersWithSets;
                        loaded_checkedAnswers := checkedAnswersArray |}
          else Throw ("Invalid state structure for key " +:+ key)
      | _, _, _ => Throw ("Invalid state structure for key " +:+ key)
      end
  end.

Definition loadQuizState (courses : list Course) (config : QuizConfig)
    (w : World) : World * option LoadedState :=
  match getQuizStateKey (Some config) with
  | None => (w, None)
  | Some key =>
      if negb (window_defined w) then (w, None)
      else
        match localStorage w !! key with
        | None => (w, None)
        | Some serializedState =>
            match parseAndValidate courses config key serializedState with
            | Normal loadedState => (w, Some loadedState)
            | Throw _ => (removeItem key w, None)
            end
        end
  end.

Definition ident_of_json (v : json) : option ident :=
  match v with
  | JNum n => Some (IdNum n)
  | JStr s => Some (IdStr s)
  | _ => None
  end.

Definition string_of_json (v : json) : option string :=
  match v with JStr s => Some s | _ => None end.

Definition bool_of_json (v : json) : option bool :=
  match v with JBool b => Some b | _ => None end.

Definition answer_of_loaded (a : LoadedAnswer) : option Answer :=
  match a with
  | LNull => Some ANull
  | LStr s => Some (AStr s)
  | LSet members => ASet <$> mapM string_of_json members
  end.

(** Reading a loaded state at its declared type [SavedQuizState]; [None]
    when some field does not have the declared shape. *)
Definition as_SavedQuizState (l : LoadedState) : option SavedQuizState :=
  let field := λ name, assoc name (loaded_parsed l) in
  match field "currentIndex", field "courseId" with
  | Some (JNum index), Some (JStr course) =>
      answers ← mapM answer_of_loaded (loaded_userAnswers l);
      ids ← as_array (field "questionIds") ≫= mapM ident_of_json;
      flags ← as_array (Some (loaded_checkedAnswers l)) ≫= mapM bool_of_json;
      start ← match field "startTime" with
              | None | Some JNull => Some None
              | Some (JNum t) => Some (Some t)
              | Some _ => None
              end;
      topic ← match field "topicId" with
              | Some JNull => Some None
              | Some (JStr t) => Some (Some t)
              | _ => None
              end;
      Some {| currentIndex := index;
              userAnswers := answers;
              startTime := start;
              questionIds := ids;
              courseId := course;
              topicId := topic;
              checkedAnswers := Some flags |}
  | _, _ => None
  end.

End Manager.

Import Manager.

(** ** Host services used by the session engine *)

Module Host.

(** [Math.random()]: the sequence of values successive calls return, each
    in [[0, 1)].  A computation that draws from it threads the number of
    calls made so far. *)
Definition Rng := nat → Q.

Definition Random (A : Type) := nat → A * nat.

Definition ret {A} (a : A) : Random A := λ calls, (a, calls).

Definition bind {A B} (m : Random A) (f : A → Random B) : Random B :=
  λ calls, let (a, calls') := m calls in f a calls'.

Notation "'let!' x ':=' m 'in' k" := (bind m (λ x, k))
  (at level 10, x name, m at level 100, k at level 200).

Definition Math_random (rng : Rng) : Random Q :=
  λ calls, (rng calls, S calls).

(** The sign of a comparator's result. *)
Definition sign (q : Q) : comparison := (q ?= 0)%Q.

(** [Array.prototype.sort(comparefn)].  ECMAScript leaves the algorithm to
    the engine; it is modelled as a stable insertion sort, which for a
    consistent comparator returns the one stable sorted arrangement every
    conforming engine returns.  For a comparator that is not consistent,
    such as one that draws its result, the order of the result and the
    number of comparator calls are the engine's own: of what holds of this
    model, that the result is a permutation of the argument holds of every
    engine, and the order it gives for particular draws does not. *)
Fixpoint insert_sorted_random {A} (comparefn : A → A → Random comparison)
    (x : A) (sorted : list A) : Random (list A) :=
  match sorted with
  | [] => ret [x]
  | y :: rest =>
      let! order := comparefn x y in
      match order with
      | Gt =>
          let! rest' := insert_sorted_random comparefn x rest in
          ret (y :: rest')
      | _ => ret (x :: y :: rest)
      end
  end.

Fixpoint Array_sort_random {A} (comparefn : A → A → Random comparison)
    (items : list A) : Random (list A) :=
  match items with
  | [] => ret []
  | x :: rest =>
      let! sorted := Array_sort_random comparefn rest in
      insert_sorted_random comparefn x sorted
  end.

(** The same algorithm for a comparator that draws nothing. *)
Fixpoint insert_sorted {A} (comparefn : A → A → comparison) (x : A)
    (sorted : list A) : list A :=
  match sorted with
  | [] => [x]
  | y :: rest =>
      match comparefn x y with
      | Gt => y :: insert_sorted comparefn x rest
      | _ => x :: y :: rest
      end
  end.

Fixpoint Array_sort {A} (comparefn : A → A → comparison) (items : list A)
  : list A :=
  match items with
  | [] => []
  | x :: rest => insert_sorted comparefn x (Array_sort comparefn rest)
  end.

(** [array.slice(-n)]. *)
Definition slice_last {A} (n : nat) (items : list A) : list A :=
  drop (length items - n) items.

(** [array[i]] for a numeric index; [None] is [undefined]. *)
Definition at_index {A} (items : list A) (i : Z) : option A :=
  if (i <? 0)%Z then None else items !! Z.to_nat i.

(** [Math.round(n / 1000)] for an integer [n]. *)
Definition round_div_1000 (n : Z) : Z := ((n + 500) / 1000)%Z.

End Host.

Import Host.

(** ** The Fisher-Yates utility ([shuffleArray]) *)

Module Shuffle.

(** [[result[i], result[j]] = [result[j], result[i]]] for indices inside
    the array. *)
Definition swap {A} (i j : nat) (result : list A) : list A :=
  match result !! i, result !! j with
  | Some a, Some b => <[j := a]> (<[i := b]> result)
  | _, _ => result
  end.

Fixpoint shuffle_loop {A} (rng : Rng) (currentIndex : nat) (result : list A)
  : Random (list A) :=
  match currentIndex with
  | O => ret result
  | S next =>
      let! r := Math_random rng in
      let randomIndex :=
        Z.to_nat (Qfloor (r * inject_Z (Z.of_nat currentIndex))) in
      shuffle_loop rng next (swap next randomIndex result)
  end.

Definition shuffleArray {A} (rng : Rng) (array : list A) : Random (list A) :=
  let result := array in
  shuffle_loop rng (length result) result.

End Shuffle.

(** ** The session engine ([src/components/Quiz.tsx]) *)

Module Quiz.

Record Session := {
  currentQuestions : list QuizItem;
  currentQuestionIndex : Z;
  userAnswers : list Answer;
  startTime : option Z;
  showFeedbackForSingleChoice : bool;
  answerStatuses : list (option Status);
  checkedAnswers : list bool;
  isLoaded : bool
}.


(** [correctAnswers.includes(v)] for an answer value [v]: only a string
    can equal an option key. *)
Definition includes (correctAnswers : list string) (v : Answer) : bool :=
  match v with
  | AStr s => existsb (String.eqb s) correctAnswers
  | _ => false
  end.

(** [correctAnswers.length === answer.size &&
     correctAnswers.every(ca => answer.has(ca))]. *)
Definition exactMatch (correctAnswers members : list string) : bool :=
  (length correctAnswers =? length members)%nat
  && forallb (Set_has members) correctAnswers.

(** *** Resume branch of the load effect *)

Definition loadedQuestionsOf (courses : list Course) (courseId : string)
    (savedState : SavedQuizState) : list QuizItem :=
  omap (λ qid, getQuestionById courses (Some courseId) qid)
       (Types.questionIds savedState).

Definition restoreAnswer (loadedQuestions : list QuizItem)
    (index : nat) (ans : Answer) : Answer :=
  match loadedQuestions !! index with
  | None => ANull
  | Some question =>
      let isMulti := isMultiSelect (correctAnswer question) in
      match ans with
      | AArr keys => if isMulti then ASet (new_Set String.eqb keys) else ans
      | _ => ans
      end
  end.

Definition restoreStatus (loadedQuestions : list QuizItem)
    (idx : nat) (userAns : Answer) : option Status :=
  match loadedQuestions !! idx with
  | None => None
  | Some question =>
      let isMulti := isMultiSelect (correctAnswer question) in
      if isMulti || match userAns with ANull => true | _ => false end
      then None
      else Some (if includes (correctAnswer question) userAns
                 then correct else incorrect)
  end.

Definition resume (courses : list Course) (courseId : string)
    (savedState : SavedQuizState) (now : Z) : Session :=
  let loadedQuestions := loadedQuestionsOf courses courseId savedState in
  let answersWithSets :=
    imap (restoreAnswer loadedQuestions) (Types.userAnswers savedState) in
  let fresh := replicate (length loadedQuestions) false in
  let loadedCheckedAnswers :=
    match Types.checkedAnswers savedState with
    | Some flags =>
        if (length flags =? length loadedQuestions)%nat then flags else fresh
    | None => fresh
    end in
  let loadedStatuses := imap (restoreStatus loadedQuestions) answersWithSets in
  let loadedIndex :=
    if (Types.currentIndex savedState <? Z.of_nat (length loadedQuestions))%Z
    then Types.currentIndex savedState else 0%Z in
  {| currentQuestions := loadedQuestions;
     currentQuestionIndex := loadedIndex;
     userAnswers := answersWithSets;
     startTime := Some (default now (Types.startTime savedState));
     checkedAnswers := loadedCheckedAnswers;
     answerStatuses := loadedStatuses;
     showFeedbackForSingleChoice :=
       (loadedIndex <? Z.of_nat (length loadedStatuses))%Z
       && match at_index loadedStatuses loadedIndex with
          | Some None => false
          | _ => true
          end
       && (loadedIndex <? Z.of_nat (length loadedQuestions))%Z
       && negb (isMultiSelect
                  match at_index loadedQuestions loadedIndex with
                  | Some q => correctAnswer q
                  | None => []
                  end);
     isLoaded := true |}.

(** *** Initialise branch of the load effect *)

(** [() => 0.5 - Math.random()]. *)
Definition randomComparator {A} (rng : Rng) (_ _ : A) : Random comparison :=
  let! r := Math_random rng in ret (sign ((1 # 2) - r)).

Definition shuffledQuestionsOf (rng : Rng) (questions : list QuizItem)
  : Random (list QuizItem) :=
  Array_sort_random (randomComparator rng) questions.

Definition initialize (courses : list Course) (courseId : string)
    (topicId : option string) (rng : Rng) (now : Z) : Session :=
  let questions := getQuizItems courses courseId topicId in
  let shuffledQuestions := (shuffledQuestionsOf rng questions 0%nat).1 in
  let questionsToUse := shuffledQuestions in
  let numQuestions := length questionsToUse in
  {| currentQuestions := questionsToUse;
     userAnswers := replicate numQuestions ANull;
     answerStatuses := replicate numQuestions None;
     checkedAnswers := replicate numQuestions false;
     currentQuestionIndex := 0;
     startTime := Some now;
     showFeedbackForSingleChoice := false;
     isLoaded := true |}.

(** The load effect.  [prev] is the session before the effect runs.  The
    result is [None] when the loaded object does not have the shape its
    declared type [SavedQuizState] promises. *)
Definition loadEffect (courses : list Course) (quizConfig : QuizConfig)
    (rng : Rng) (now : Z) (prev : Session) (w : World)
  : World * option Session :=
  match getQuizStateKey (Some quizConfig) with
  | None =>
      (w, Some {| isLoaded := true;
                  currentQuestions := [];
                  currentQuestionIndex := currentQuestionIndex prev;
                  userAnswers := userAnswers prev;
                  startTime := startTime prev;
                  showFeedbackForSingleChoice :=
                    showFeedbackForSingleChoice prev;
                  answerStatuses := answerStatuses prev;
                  checkedAnswers := checkedAnswers prev |})
  | Some _ =>
      let '(w', savedState) := loadQuizState courses quizConfig w in
      let fresh :=
        initialize courses (Identity.courseId quizConfig)
          (Identity.topicId quizConfig) rng now in
      match savedState with
      | None => (w', Some fresh)
      | Some loaded =>
          match as_array (assoc "questionIds" (loaded_parsed loaded)) with
          | Some (_ :: _) =>
              (w', (λ typed, resume courses (Identity.courseId quizConfig)
                               typed now)
                     <$> as_SavedQuizState loaded)
          | _ => (w', Some fresh)
          end
      end
  end.

(** *** Finish *)

(** The final calculation of correctness for one question. *)
Definition finalCorrect (q : QuizItem) (userAnswerForQuestion : option Answer)
  : bool :=
  let correctAnswers := correctAnswer q in
  if isMultiSelect correctAnswers then
    match userAnswerForQuestion with
    | Some (ASet members) => exactMatch correctAnswers members
    | _ => false
    end
  else
    includes correctAnswers
      match userAnswerForQuestion with
      | None | Some ANull => AStr ""
      | Some other => other
      end.

(** One step of [currentQuestions.map] in [finishQuiz], threading the
    mutable [score]. *)
Definition finishStep (userAnswers : list Answer)
    (acc : Z * list AnswerResult) (index : nat) (q : QuizItem)
  : Z * list AnswerResult :=
  let '(score, details) := acc in
  let userAnswerForQuestion := userAnswers !! index in
  let isCorrectFlag := finalCorrect q userAnswerForQuestion in
  ((if isCorrectFlag then score + 1 else score)%Z,
   details ++ [ {| questionId := id q;
                   userAnswer := userAnswerForQuestion;
                   result_correctAnswer := correctAnswer q;
                   isCorrect := isCorrectFlag;
                   result_options := options q |} ]).

Fixpoint finishLoop (userAnswers : list Answer) (index : nat)
    (questions : list QuizItem) (acc : Z * list AnswerResult)
  : Z * list AnswerResult :=
  match questions with
  | [] => acc
  | q :: rest =>
      finishLoop userAnswers (S index) rest
        (finishStep userAnswers acc index q)
  end.

(** [finishQuiz].  [endTime] and [stamp] are the two readings of
    [Date.now()].  The result [Some (w', r)] says that [onComplete] is
    called with [r] and that [w'] is the world at that call; [None] is the
    early [return]. *)
Definition finishQuiz (quizConfig : QuizConfig) (endTime stamp : Z)
    (st : Session) (w : World) : option (World * QuizResults) :=
  match startTime st with
  | None => None
  | Some start =>
      if (length (currentQuestions st) =? 0)%nat || negb (isLoaded st)
      then None
      else
        let durationInSeconds := round_div_1000 (endTime - start) in
        let '(score, answerDetails) :=
          finishLoop (userAnswers st) 0 (currentQuestions st) (0%Z, []) in
        let w' :=
          match getQuizStateKey (Some quizConfig) with
          | Some _ => saveQuizState quizConfig None w
          | None => w
          end in
        Some (w',
              {| score := score;
                 totalQuestions := Z.of_nat (length (currentQuestions st));
                 answers := answerDetails;
                 duration := durationInSeconds;
                 result_questionIds := id <$> currentQuestions st;
                 result_courseId := Identity.courseId quizConfig;
                 result_topicId := Identity.topicId quizConfig;
                 timestamp := Some stamp |})
  end.

End Quiz.

(** ** The completed-attempt history ([handleAddResult] in [src/App.tsx]) *)

Module History.

(** [(a.timestamp ?? 0) - (b.timestamp ?? 0)], as a sign, for timestamps
    that are numbers or missing. *)
Definition byTimestamp (a b : QuizResults) : comparison :=
  (default 0 (timestamp a) - default 0 (timestamp b) ?= 0)%Z.

(** [{ ...newResult, timestamp: typeof newResult.timestamp === 'number'
       ? newResult.timestamp : Date.now() }]; [now] is [Date.now()]. *)
Definition resultToAdd (now : Z) (newResult : QuizResults) : QuizResults :=
  {| score := score newResult;
     totalQuestions := totalQuestions newResult;
     answers := answers newResult;
     duration := duration newResult;
     result_questionIds := result_questionIds newResult;
     result_courseId := result_courseId newResult;
     result_topicId := result_topicId newResult;
     timestamp := Some (default now (timestamp newResult)) |}.

(** The state updater passed to [setResultsHistory]. *)
Definition handleAddResult (now : Z) (newResult : QuizResults)
    (prevHistory : list QuizResults) : list QuizResults :=
  let resultToAdd := resultToAdd now newResult in
  let otherResults :=
    filter (λ r, timestamp r ≠ timestamp resultToAdd) prevHistory in
  let updatedResults :=
    Array_sort byTimestamp (otherResults ++ [resultToAdd]) in
  slice_last 50 updatedResults.

End History.

(** ** The in-progress index and the bulk operations
       ([loadAllStatesFromStorage], [clearAllQuizStates]) *)

Module Index.

(** Truthiness of a stored string ([if (savedFull)]): only the empty
    string is falsy. *)
Definition text_truthy (t : text) : bool :=
  match t with
  | Unparsable "" => false
  | _ => true
  end.

(** [parsed && typeof parsed.currentIndex === 'number'
     && Array.isArray(parsed.userAnswers)]. *)
Definition validEntry (parsed : json) : bool :=
  truthy parsed
  && is_number (prop parsed "currentIndex")
  && match as_array (prop parsed "userAnswers") with
     | Some _ => true
     | None => false
     end.

(** The body run for one key: the [try] block with its [catch]. *)
Definition loadKey (key : string)
    (acc : gmap string text * gmap string json)
  : gmap string text * gmap string json :=
  let '(storage, loadedStates) := acc in
  match storage !! key with
  | None => acc
  | Some saved =>
      if text_truthy saved then
        match JSON_parse saved with
        | Normal parsed =>
            if validEntry parsed
            then (storage, <[key := parsed]> loadedStates)
            else (delete key storage, loadedStates)
        | Throw _ => (delete key storage, loadedStates)
        end
      else acc
  end.

Definition fullKey (course : Course) : option string :=
  getQuizStateKey
    (Some {| Identity.courseId := course_id course;
             Identity.topicId := None;
             Identity.type := full |}).

Definition topicKey (course : Course) (topic : string) : option string :=
  if String.eqb topic "" then None
  else getQuizStateKey
         (Some {| Identity.courseId := course_id course;
                  Identity.topicId := Some topic;
                  Identity.type := topic_quiz |}).

(** The keys the two nested [forEach] loops visit, in order. *)
Definition courseKeys (course : Course) : list string :=
  option_list (fullKey course) ++ omap (topicKey course) (topics course).

Definition managedKeys (courses : list Course) : list string :=
  courses ≫= courseKeys.

(** [loadAllStatesFromStorage]: the store after the pass and the map it
    returns. *)
Definition loadAllStatesFromStorage (courses : list Course) (w : World)
  : World * gmap string json :=
  if negb (window_defined w) then (w, ∅)
  else
    let '(storage, loadedStates) :=
      foldl (λ acc key, loadKey key acc) (localStorage w, ∅)
            (managedKeys courses) in
    ({| window_defined := window_defined w;
        localStorage := storage;
        inProgressQuizzes := inProgressQuizzes w |},
     loadedStates).

(** [clearAllQuizStates]. *)
Definition clearAllQuizStates (w : World) : World :=
  if negb (window_defined w) then w
  else
    {| window_defined := window_defined w;
       localStorage :=
         delete "quizResults"
           (filter (λ entry, String.prefix QUIZ_STATE_PREFIX entry.1 = false)
                   (localStorage w));
       inProgressQuizzes := ∅ |}.

End Index.

(** ** The question view's change handler ([src/components/Question.tsx]) *)

Module QuestionView.

(** The value passed to [onAnswer]: [string | Set<string>]. *)
Inductive Selected :=
| SelStr (value : string)
| SelSet (members : list string).

Definition answerOf (selected : Selected) : Answer :=
  match selected with
  | SelStr value => AStr value
  | SelSet members => ASet members
  end.

(** [(showFeedback && !multipleCorrect) || isChecked]. *)
Definition displayFeedbackActive (questionData : QuizItem)
    (showFeedback isChecked : bool) : bool :=
  (showFeedback && negb (isMultiSelect (correctAnswer questionData)))
  || isChecked.

(** [set.add(value)] and [set.delete(value)] on a copy of the set. *)
Definition Set_add (members : list string) (value : string) : list string :=
  if Set_has members value then members else members ++ [value].

Definition Set_delete (members : list string) (value : string) : list string :=
  filter (λ member, member ≠ value) members.

(** The value [handleOptionChange] passes on for a change of the input
    [value]: a checkbox (multi-select question) toggles membership in the
    current set, a radio button gives its key.  [None] is [undefined]. *)
Definition handleOptionChange (questionData : QuizItem)
    (userAnswer : option Answer) (value : string) (checked : bool)
  : Selected :=
  if isMultiSelect (correctAnswer questionData) then
    let currentSet :=
      match userAnswer with
      | Some (ASet members) => members
      | _ => []
      end in
    SelSet (if checked then Set_add currentSet value
            else Set_delete currentSet value)
  else SelStr value.

(** The [Check Answer] button is enabled: [userAnswer instanceof Set &&
    userAnswer.size > 0]. *)
Definition checkEnabled (userAnswer : option Answer) : bool :=
  match userAnswer with
  | Some (ASet (_ :: _)) => true
  | _ => false
  end.

End QuestionView.

(** ** The session engine, continued: answering, checking, navigating and
       saving ([src/components/Quiz.tsx]) *)

Module Handlers.

Import Quiz QuestionView.

(** [copy = [...prev]; copy[i] = x].  [None] when [i] is negative or
    beyond the end: the write then adds no element or leaves holes, which a
    list does not represent. *)
Definition Array_set {A} (i : Z) (x : A) (prev : list A) : option (list A) :=
  if (i <? 0)%Z then None
  else if (i <? Z.of_nat (length prev))%Z
       then Some (<[Z.to_nat i := x]> prev)
       else if (i =? Z.of_nat (length prev))%Z then Some (prev ++ [x])
            else None.

Definition handleAnswer (questionIndex : Z) (selectedValue : Selected)
    (st : Session) : option Session :=
  if negb (isLoaded st) then Some st
  else
    newAnswers ← Array_set questionIndex (answerOf selectedValue)
                   (userAnswers st);
    let reopened :=
      newStatuses ← Array_set questionIndex None (answerStatuses st);
      newChecked ← Array_set questionIndex false (checkedAnswers st);
      Some {| currentQuestions := currentQuestions st;
              currentQuestionIndex := currentQuestionIndex st;
              userAnswers := newAnswers;
              startTime := startTime st;
              showFeedbackForSingleChoice := false;
              answerStatuses := newStatuses;
              checkedAnswers := newChecked;
              isLoaded := isLoaded st |} in
    match at_index (currentQuestions st) questionIndex with
    | Some currentQData =>
        if negb (isMultiSelect (correctAnswer currentQData)) then
          let isRight :=
            includes (correctAnswer currentQData) (answerOf selectedValue) in
          newStatuses ← Array_set questionIndex
                          (Some (if isRight then correct else incorrect))
                          (answerStatuses st);
          Some {| currentQuestions := currentQuestions st;
                  currentQuestionIndex := currentQuestionIndex st;
                  userAnswers := newAnswers;
                  startTime := startTime st;
                  showFeedbackForSingleChoice := true;
                  answerStatuses := newStatuses;
                  checkedAnswers := checkedAnswers st;
                  isLoaded := isLoaded st |}
        else reopened
    | None => reopened
    end.

Definition handleCheckMultiAnswer (questionIndex : Z) (st : Session)
  : option Session :=
  if negb (isLoaded st) then Some st
  else
    let isCorrectFlag :=
      match at_index (currentQuestions st) questionIndex,
            at_index (userAnswers st) questionIndex with
      | Some currentQData, Some (ASet members) =>
          exactMatch (correctAnswer currentQData) members
      | _, _ => false
      end in
    newStatuses ← Array_set questionIndex
                    (Some (if isCorrectFlag then correct else incorrect))
                    (answerStatuses st);
    newChecked ← Array_set questionIndex true (checkedAnswers st);
    Some {| currentQuestions := currentQuestions st;
            currentQuestionIndex := currentQuestionIndex st;
            userAnswers := userAnswers st;
            startTime := startTime st;
            showFeedbackForSingleChoice := false;
            answerStatuses := newStatuses;
            checkedAnswers := newChecked;
            isLoaded := isLoaded st |}.

(** [q && !isMultiSelect(q.correctAnswer || []) && status !== null] for the
    question and status at index [i]. *)
Definition answeredSingleAt (st : Session) (i : Z) : bool :=
  match at_index (currentQuestions st) i with
  | Some q =>
      negb (isMultiSelect (correctAnswer q))
      && match at_index (answerStatuses st) i with
         | Some None => false
         | _ => true
         end
  | None => false
  end.

Definition moveTo (st : Session) (index : Z) (feedback : bool) : Session :=
  {| currentQuestions := currentQuestions st;
     currentQuestionIndex := index;
     userAnswers := userAnswers st;
     startTime := startTime st;
     showFeedbackForSingleChoice := feedback;
     answerStatuses := answerStatuses st;
     checkedAnswers := checkedAnswers st;
     isLoaded := isLoaded st |}.

Definition nextQuestion (st : Session) : Session :=
  let nextIndex := (currentQuestionIndex st + 1)%Z in
  if (nextIndex <? Z.of_nat (length (currentQuestions st)))%Z
  then moveTo st nextIndex (answeredSingleAt st nextIndex)
  else moveTo st (currentQuestionIndex st) false.

Definition prevQuestion (st : Session) : Session :=
  let prevIndex := (currentQuestionIndex st - 1)%Z in
  if (0 <=? prevIndex)%Z
  then moveTo st prevIndex (answeredSingleAt st prevIndex)
  else moveTo st (currentQuestionIndex st) false.

(** The [disabled] expression shared by the [Next] and [Finish Quiz]
    buttons. *)
Definition advanceDisabled (st : Session) : bool :=
  let index := currentQuestionIndex st in
  let multi :=
    isMultiSelect
      match at_index (currentQuestions st) index with
      | Some q => correctAnswer q
      | None => []
      end in
  let unanswered :=
    match at_index (userAnswers st) index with
    | Some ANull => true
    | _ => false
    end in
  let unchecked := negb (default false (at_index (checkedAnswers st) index)) in
  (negb multi && unanswered)
  || (negb multi && negb (showFeedbackForSingleChoice st))
  || (multi && unchecked).

(** [isChecked={checkedAnswers[currentQuestionIndex] || false}]. *)
Definition isChecked (st : Session) : bool :=
  default false (at_index (checkedAnswers st) (currentQuestionIndex st)).

(** The save effect: what it does to the store for the session [st]. *)
Definition stateToSave (quizConfig : QuizConfig) (start : Z) (st : Session)
  : SavedQuizState :=
  {| Types.currentIndex := currentQuestionIndex st;
     Types.userAnswers := answerForStorage <$> userAnswers st;
     Types.startTime := Some start;
     Types.questionIds := id <$> currentQuestions st;
     Types.courseId := Identity.courseId quizConfig;
     Types.topicId := Identity.topicId quizConfig;
     Types.checkedAnswers := Some (checkedAnswers st) |}.


(** What the rendered quiz lets the user do in session [st]: change an
    option of the current question while its inputs are enabled, press
    [Check Answer], [Next] or [Previous] while the button is shown and
    enabled.  The question view is rendered for a loaded session whose
    current question exists. *)
Inductive ui_step : Session → Session → Prop :=
| ui_option st q value checked st' :
    isLoaded st = true →
    at_index (currentQuestions st) (currentQuestionIndex st) = Some q →
    displayFeedbackActive q (showFeedbackForSingleChoice st) (isChecked st)
      = false →
    handleAnswer (currentQuestionIndex st)
      (handleOptionChange q
         (at_index (userAnswers st) (currentQuestionIndex st)) value checked)
      st = Some st' →
    ui_step st st'
| ui_check st q st' :
    isLoaded st = true →
    at_index (currentQuestions st) (currentQuestionIndex st) = Some q →
    isMultiSelect (correctAnswer q) = true →
    isChecked st = false →
    checkEnabled (at_index (userAnswers st) (currentQuestionIndex st)) = true →
    handleCheckMultiAnswer (currentQuestionIndex st) st = Some st' →
    ui_step st st'
| ui_next st q :
    isLoaded st = true →
    at_index (currentQuestions st) (currentQuestionIndex st) = Some q →
    (currentQuestionIndex st < Z.of_nat (length (currentQuestions st)) - 1)%Z →
    advanceDisabled st = false →
    ui_step st (nextQuestion st)
| ui_prev st q :
    isLoaded st = true →
    at_index (currentQuestions st) (currentQuestionIndex st) = Some q →
    currentQuestionIndex st ≠ 0%Z →
    ui_step st (prevQuestion st).

(** The [Finish Quiz] button is shown and enabled. *)
Definition finishEnabled (st : Session) : Prop :=
  isLoaded st = true
  ∧ is_Some (at_index (currentQuestions st) (currentQuestionIndex st))
  ∧ ¬ (currentQuestionIndex st < Z.of_nat (length (currentQuestions st)) - 1)%Z
  ∧ advanceDisabled st = false.

End Handlers.

(** ** The results page ([src/pages/ResultsPage.tsx]) *)

Module Pages.

Import History.

(** The mount effect of the results page: a result with a numeric
    timestamp is added to the history; [None] is a page opened without
    results. *)
Definition addResultOnMount (results : option QuizResults) (now : Z)
    (prevHistory : list QuizResults) : list QuizResults :=
  match results with
  | Some result =>
      match timestamp result with
      | Some _ => handleAddResult now result prevHistory
      | None => prevHistory
      end
  | None => prevHistory
  end.

End Pages.

(** * Specification-side definitions and sample data *)

(** ** Identity *)

(** The sixty-four characters of the key alphabet, written out. *)
Definition key_alphabet : list ascii :=
  list_ascii_of_string
    "abcdefghijklmnopqrstuvwxyzABCDEFGHIJKLMNOPQRSTUVWXYZ0123456789_-".

(** Sanitising as the specification words it: a character outside the
    alphabet becomes an underscore, any other is kept. *)
Definition sanitize_char (c : ascii) : ascii :=
  if existsb (Ascii.eqb c) key_alphabet then c else "_"%char.

Definition sanitize_spec (s : string) : string :=
  string_of_list_ascii (map sanitize_char (list_ascii_of_string s)).

Definition demo_topic_config : QuizConfig :=
  {| Identity.courseId := "gcp-ace";
     Identity.topicId := Some "IAM & Admin (v2)";
     Identity.type := topic_quiz |}.

(** ** Scoring *)

(** The detail record [finishQuiz] builds for question [q] at [index]. *)
Definition detailOf (userAnswers : list Answer) (index : nat) (q : QuizItem)
  : AnswerResult :=
  {| questionId := id q;
     userAnswer := userAnswers !! index;
     result_correctAnswer := correctAnswer q;
     isCorrect := Quiz.finalCorrect q (userAnswers !! index);
     result_options := options q |}.

Definition correctCount (details : list AnswerResult) : Z :=
  Z.of_nat (length (filter (λ a, isCorrect a = true) details)).

(** [answer ?? ''], with [undefined] read like [null]. *)
Definition orEmpty (answer : option Answer) : Answer :=
  match answer with
  | None | Some ANull => AStr ""
  | Some other => other
  end.

(** ** Sample catalog and sessions

    Course [demo]: question 1 is single-select with correct key [A],
    question 2 is multi-select with correct keys [A] and [B]; both belong to
    topic [t1].  Question [q3] belongs to topic [t2]. *)

Definition demo_q1 : QuizItem :=
  {| id := IdNum 1; topic := Some "t1"; question := "first";
     options := [("A", "yes"); ("B", "no")];
     correctAnswer := ["A"] |}.

Definition demo_q2 : QuizItem :=
  {| id := IdNum 2; topic := Some "t1"; question := "second";
     options := [("A", "one"); ("B", "two"); ("C", "three")];
     correctAnswer := ["A"; "B"] |}.

Definition demo_q3 : QuizItem :=
  {| id := IdStr "q3"; topic := Some "t2"; question := "third";
     options := [("C", "only")];
     correctAnswer := ["C"] |}.

Definition demo_course : Course :=
  {| course_id := "demo"; title := "Demo";
     quizItems := [demo_q1; demo_q2; demo_q3];
     topics := ["t1"; "t2"] |}.

Definition demo_courses : list Course := [demo_course].

Definition demo_config : QuizConfig :=
  {| Identity.courseId := "demo";
     Identity.topicId := Some "t1";
     Identity.type := topic_quiz |}.

Definition empty_world : World :=
  {| window_defined := true; localStorage := ∅; inProgressQuizzes := ∅ |}.

(** A session on topic [t1] with both questions answered correctly. *)
Definition demo_session : Quiz.Session :=
  {| Quiz.currentQuestions := [demo_q1; demo_q2];
     Quiz.currentQuestionIndex := 1;
     Quiz.userAnswers := [AStr "A"; ASet ["B"; "A"]];
     Quiz.startTime := Some 1000;
     Quiz.showFeedbackForSingleChoice := false;
     Quiz.answerStatuses := [Some correct; Some correct];
     Quiz.checkedAnswers := [false; true];
     Quiz.isLoaded := true |}.

(** The state the save effect writes for [demo_session]. *)
Definition demo_saved : SavedQuizState :=
  {| currentIndex := 1;
     userAnswers := [AStr "A"; AArr ["B"; "A"]];
     startTime := Some 1000;
     questionIds := [IdNum 1; IdNum 2];
     courseId := "demo";
     topicId := Some "t1";
     checkedAnswers := Some [false; true] |}.

(** A course whose first question lists the empty string as its correct
    key, and a stored state of its whole-course quiz that stands at the
    second question with the first one unanswered. *)
Definition blank_q : QuizItem :=
  {| id := IdNum 1; topic := None; question := "blank";
     options := [("", "nothing"); ("A", "something")];
     correctAnswer := [""] |}.

Definition blank_next : QuizItem :=
  {| id := IdNum 2; topic := None; question := "next";
     options := [("A", "yes"); ("B", "no")];
     correctAnswer := ["A"] |}.

Definition blank_courses : list Course :=
  [ {| course_id := "blank"; title := "Blank";
       quizItems := [blank_q; blank_next];
       topics := [] |} ].

Definition blank_config : QuizConfig :=
  {| Identity.courseId := "blank";
     Identity.topicId := None;
     Identity.type := full |}.

Definition unanswered_world : World :=
  {| window_defined := true;
     localStorage :=
       {[ "quizState_blank_full" :=
            Stringified
              (JObj [("currentIndex", JNum 1);
                     ("userAnswers", JArr [JNull; JStr "A"]);
                     ("startTime", JNum 1000);
                     ("questionIds", JArr [JNum 1; JNum 2]);
                     ("courseId", JStr "blank");
                     ("topicId", JNull);
                     ("checkedAnswers", JArr [JBool false; JBool false])]) ]};
     inProgressQuizzes := ∅ |}.

(** The session the load effect resumes from [unanswered_world]. *)
Definition unanswered_session : Quiz.Session :=
  {| Quiz.currentQuestions := [blank_q; blank_next];
     Quiz.currentQuestionIndex := 1;
     Quiz.userAnswers := [ANull; AStr "A"];
     Quiz.startTime := Some 1000;
     Quiz.showFeedbackForSingleChoice := true;
     Quiz.answerStatuses := [None; Some correct];
     Quiz.checkedAnswers := [false; false];
     Quiz.isLoaded := true |}.

(** ** Persistence *)

(** Structural validity of a parsed value, as the specification words it:
    [currentIndex] is numeric, [userAnswers] and [questionIds] are arrays
    of equal length. *)
Definition structurally_valid (parsed : json) : Prop :=
  ∃ index answers ids,
    prop parsed "currentIndex" = Some (JNum index)
    ∧ prop parsed "userAnswers" = Some (JArr answers)
    ∧ prop parsed "questionIds" = Some (JArr ids)
    ∧ length ids = length answers.

(** A store whose entry for [demo_config] is not JSON, and one whose entry
    is JSON with mismatched lengths. *)
Definition garbled_world : World :=
  {| window_defined := true;
     localStorage := {[ "quizState_demo_t1" := Unparsable "{currentIndex:" ]};
     inProgressQuizzes := ∅ |}.

Definition mismatched_world : World :=
  {| window_defined := true;
     localStorage :=
       {[ "quizState_demo_t1" :=
            Stringified
              (JObj [("currentIndex", JNum 0);
                     ("userAnswers", JArr [JNull]);
                     ("questionIds", JArr [JNum 1; JNum 2])]) ]};
     inProgressQuizzes := ∅ |}.

(** ** Resuming *)

(** A saved state whose multi-select question 2 was answered [{A, B}] and
    checked before the page was left. *)
Definition checked_saved : SavedQuizState :=
  {| currentIndex := 0;
     userAnswers := [ASet ["A"; "B"]];
     startTime := Some 1000;
     questionIds := [IdNum 2];
     courseId := "demo";
     topicId := Some "t1";
     checkedAnswers := Some [true] |}.

(** A stored entry whose [currentIndex] is [-1], and the state
    [loadQuizState] makes of it. *)
Definition negative_world : World :=
  {| window_defined := true;
     localStorage :=
       {[ "quizState_demo_t1" :=
            Stringified
              (JObj [("currentIndex", JNum (-1));
                     ("userAnswers", JArr [JStr "A"; JNull]);
                     ("startTime", JNum 1000);
                     ("questionIds", JArr [JNum 1; JNum 2]);
                     ("courseId", JStr "demo");
                     ("topicId", JStr "t1");
                     ("checkedAnswers", JArr [JBool false; JBool false])]) ]};
     inProgressQuizzes := ∅ |}.

Definition negative_saved : SavedQuizState :=
  {| currentIndex := -1;
     userAnswers := [AStr "A"; ANull];
     startTime := Some 1000;
     questionIds := [IdNum 1; IdNum 2];
     courseId := "demo";
     topicId := Some "t1";
     checkedAnswers := Some [false; false] |}.

(** A stored entry that passes the structural check and whose question
    id is an object with an own [toString] property. *)
Definition opaque_id_world : World :=
  {| window_defined := true;
     localStorage :=
       {[ "quizState_demo_t1" :=
            Stringified
              (JObj [("currentIndex", JNum 0);
                     ("userAnswers", JArr [JStr "A"]);
                     ("questionIds", JArr [JObj [("toString", JNum 1)]])]) ]};
     inProgressQuizzes := ∅ |}.

(** ** Round trip *)

(** Whether the catalog's question with the persisted id is multi-select:
    the question is found and lists more than one correct key. *)
Definition multiSelectById (courses : list Course) (config : QuizConfig)
    (questionId : ident) : bool :=
  match getQuestionById courses (Some (Identity.courseId config)) questionId
  with
  | Some q => bool_decide (1 < length (correctAnswer q))%nat
  | None => false
  end.

(** What the round trip makes of one answer: an answer stored as an array
    (a set is stored as the array of its members) comes back as a set
    exactly for a multi-select question; a string stays; all else is
    null. *)
Definition roundtripAnswer (multi : bool) (a : Answer) : Answer :=
  match a with
  | ASet members => if multi then ASet members else ANull
  | AArr keys => if multi then ASet (new_Set String.eqb keys) else ANull
  | AStr s => AStr s
  | ANull => ANull
  end.

(** [checkedAnswers], backfilled to all-false when absent or of the wrong
    length. *)
Definition backfill (n : nat) (flags : option (list bool)) : list bool :=
  match flags with
  | Some given => if decide (length given = n) then given else replicate n false
  | None => replicate n false
  end.

(** [s] with its answers and [checkedAnswers] as the round trip leaves
    them and every other field as it is. *)
Definition roundtrip (courses : list Course) (config : QuizConfig)
    (s : SavedQuizState) : SavedQuizState :=
  {| currentIndex := currentIndex s;
     userAnswers :=
       zip_with (λ qid a, roundtripAnswer (multiSelectById courses config qid) a)
                (questionIds s) (userAnswers s);
     startTime := startTime s;
     questionIds := questionIds s;
     courseId := courseId s;
     topicId := topicId s;
     checkedAnswers :=
       Some (backfill (length (questionIds s)) (checkedAnswers s)) |}.

(** [s] as loading after saving under [config] returns it: the course
    and topic are the config's, the answers and [checkedAnswers] are as
    the round trip leaves them, every other field is as it is. *)
Definition reloaded (courses : list Course) (config : QuizConfig)
    (s : SavedQuizState) : SavedQuizState :=
  {| currentIndex := currentIndex s;
     userAnswers :=
       zip_with (λ qid a, roundtripAnswer (multiSelectById courses config qid) a)
                (questionIds s) (userAnswers s);
     startTime := startTime s;
     questionIds := questionIds s;
     courseId := Identity.courseId config;
     topicId := Identity.topicId config;
     checkedAnswers :=
       Some (backfill (length (questionIds s)) (checkedAnswers s)) |}.

(** A saved state is well formed when it has one answer per question id
    and its sets have no repeated member. *)
Definition answer_ok (a : Answer) : Prop :=
  match a with
  | ASet members => NoDup members
  | _ => True
  end.

Definition well_formed (s : SavedQuizState) : Prop :=
  length (userAnswers s) = length (questionIds s)
  ∧ Forall answer_ok (userAnswers s).

(** The state of [demo_saved] filed under another course and topic. *)
Definition foreign_saved : SavedQuizState :=
  {| currentIndex := 1;
     userAnswers := [AStr "A"; AArr ["B"; "A"]];
     startTime := Some 1000;
     questionIds := [IdNum 1; IdNum 2];
     courseId := "other";
     topicId := None;
     checkedAnswers := Some [false; true] |}.

(** ** History *)

(** The sort key of a stored result: [timestamp ?? 0]. *)
Definition sortKey (r : QuizResults) : Z := default 0 (timestamp r).


(** Appending a batch of results, one [handleAddResult] each. *)
Definition appendAll (now : Z) (batch history : list QuizResults)
  : list QuizResults :=
  foldl (λ acc r, History.handleAddResult now r acc) history batch.

(** A result with the given completion time and score. *)
Definition resultAt (t score : Z) : QuizResults :=
  {| Types.score := score; totalQuestions := 2; answers := [];
     duration := 60; result_questionIds := [IdNum 1; IdNum 2];
     result_courseId := "demo"; result_topicId := Some "t1";
     timestamp := Some t |}.

(** Fifty-five results, the later half submitted first. *)
Definition batch55 : list QuizResults :=
  ((λ i, resultAt (2000 + Z.of_nat i) 1) <$> seq 0 25)
  ++ ((λ i, resultAt (1000 + Z.of_nat i) 2) <$> seq 0 30).

(** ** Shuffling *)

(** A random source that returns the given draws, then [3/4] for ever. *)
Definition rngOf (draws : list Q) : Rng := λ n, nth n draws (3 # 4).

(** All sequences of [k] draws, each either [1/4] or [3/4]: under
    [() => 0.5 - Math.random()] the two halves of the unit interval, each of
    probability one half, make the comparator positive and negative. *)
Fixpoint coinDraws (k : nat) : list (list Q) :=
  match k with
  | O => [[]]
  | S k' =>
      ((λ draws, (1 # 4) :: draws) <$> coinDraws k')
      ++ ((λ draws, (3 # 4) :: draws) <$> coinDraws k')
  end.

(** The orders the initialise branch produces, one per sequence of three
    comparator outcomes (three comparisons sort three items). *)
Definition sortOutcomes (questions : list QuizItem) : list (list ident) :=
  (λ draws, id <$> (Quiz.shuffledQuestionsOf (rngOf draws) questions 0%nat).1)
    <$> coinDraws 3.

(** Draws that make [Math.floor(Math.random() * n)] equal to each index
    below [n] once: the midpoints [(2 j + 1) / (2 n)]. *)
Definition indexDraws (n : nat) : list Q :=
  (λ j, (2 * Z.of_nat j + 1) # Pos.of_nat (2 * n)) <$> seq 0 n.

(** All sequences of draws for a Fisher-Yates pass over [n] items: the
    first draw picks among [n] indices, the next among [n - 1], and so on. *)
Fixpoint indexDrawSequences (n : nat) : list (list Q) :=
  match n with
  | O => [[]]
  | S n' =>
      r ← indexDraws n; (λ draws, r :: draws) <$> indexDrawSequences n'
  end.

Definition fisherYatesOutcomes (questions : list QuizItem) : list (list ident) :=
  (λ draws, id <$> (Shuffle.shuffleArray (rngOf draws) questions 0%nat).1)
    <$> indexDrawSequences (length questions).

Definition three_questions : list QuizItem := [demo_q1; demo_q2; demo_q3].

(** The state [saveQuizState] serialises for [s]: [s] with the config's
    course and topic. *)
Definition underConfig (config : QuizConfig) (s : SavedQuizState)
  : SavedQuizState :=
  {| currentIndex := currentIndex s;
     userAnswers := userAnswers s;
     startTime := startTime s;
     questionIds := questionIds s;
     courseId := Identity.courseId config;
     topicId := Identity.topicId config;
     checkedAnswers := checkedAnswers s |}.

(** ** Bulk loading *)

(** A stored text that [loadAllStatesFromStorage] removes: it is not empty
    and either does not parse or parses to a value that fails the pass's
    check. *)
Definition corruptEntry (t : text) : bool :=
  Index.text_truthy t
  && match JSON_parse t with
     | Normal parsed => negb (Index.validEntry parsed)
     | Throw _ => true
     end.

(** The value [loadAllStatesFromStorage] reports for a stored text. *)
Definition keptEntry (t : text) : option json :=
  if Index.text_truthy t then
    match JSON_parse t with
    | Normal parsed => if Index.validEntry parsed then Some parsed else None
    | Throw _ => None
    end
  else None.

(** The topic part of an identity: the topic, or [full] for the whole
    course. *)
Definition topicPart (c : QuizConfig) : string :=
  match Identity.topicId c with None => "full" | Some t => t end.

Definition demo_config_opt : option QuizConfig := Some demo_config.

Definition demo_config_t2 : option QuizConfig :=
  Some {| Identity.courseId := "demo";
          Identity.topicId := Some "t2";
          Identity.type := topic_quiz |}.

(** ** Session invariants *)

Definition verdict (isRight : bool) : Status :=
  if isRight then correct else incorrect.

(** A question is confirmed once a single-select question has an answer
    and a multi-select question has been checked. *)
Definition confirmed (st : Quiz.Session) (i : nat) : Prop :=
  ∃ q, Quiz.currentQuestions st !! i = Some q
       ∧ if isMultiSelect (correctAnswer q)
         then Quiz.checkedAnswers st !! i = Some true
         else ∃ a, Quiz.userAnswers st !! i = Some a ∧ a ≠ ANull.

(** The answer of a multi-select question is null or a set without
    repeated members; that of a single-select question is null or a key. *)
Definition answer_kind (q : QuizItem) (a : Answer) : Prop :=
  if isMultiSelect (correctAnswer q)
  then a = ANull ∨ ∃ members, a = ASet members ∧ NoDup members
  else a = ANull ∨ ∃ key, a = AStr key.

(** The cached status of a question agrees with its answer: a
    single-select question has a status exactly when it has an answer, and
    any status is the verdict of the final scoring rule. *)
Definition status_agrees (q : QuizItem) (a : Answer) (s : option Status)
  : Prop :=
  if isMultiSelect (correctAnswer q)
  then ∀ v, s = Some v → v = verdict (Quiz.finalCorrect q (Some a))
  else s = match a with
           | ANull => None
           | _ => Some (verdict (Quiz.includes (correctAnswer q) a))
           end.

Definition session_ok (st : Quiz.Session) : Prop :=
  Quiz.isLoaded st = true
  ∧ length (Quiz.userAnswers st) = length (Quiz.currentQuestions st)
  ∧ length (Quiz.answerStatuses st) = length (Quiz.currentQuestions st)
  ∧ length (Quiz.checkedAnswers st) = length (Quiz.currentQuestions st)
  ∧ (0 ≤ Quiz.currentQuestionIndex st
       < Z.of_nat (length (Quiz.currentQuestions st)))%Z
  ∧ (∀ i q a, Quiz.currentQuestions st !! i = Some q →
              Quiz.userAnswers st !! i = Some a → answer_kind q a)
  ∧ (∀ i q a s, Quiz.currentQuestions st !! i = Some q →
                Quiz.userAnswers st !! i = Some a →
                Quiz.answerStatuses st !! i = Some s → status_agrees q a s)
  ∧ Quiz.showFeedbackForSingleChoice st
    = Handlers.answeredSingleAt st (Quiz.currentQuestionIndex st)
  ∧ (∀ i, (Z.of_nat i < Quiz.currentQuestionIndex st)%Z → confirmed st i).

(** The sessions a user can reach from a new quiz over the catalog's
    questions for a course and topic. *)
Definition reachable (courses : list Course) (courseId : string)
    (topicId : option string) (rng : Rng) (now : Z) (st : Quiz.Session)
  : Prop :=
  rtc Handlers.ui_step
      (Quiz.initialize courses courseId topicId rng now) st.

(** ** Reloading a session *)


(** ** Numeric ids *)

(** [Number.isSafeInteger]: the integers a JavaScript number holds
    exactly and [String] prints digit by digit. *)
Definition safe_integer (n : Z) : Prop := (Z.abs n ≤ 2 ^ 53 - 1)%Z.

(** * Properties *)

(** ** General facts about the host operations *)

Lemma Array_find_Some {A} (p : A → bool) (l : list A) (x : A) :
  Array_find p l = Some x ↔
  ∃ before after,
    l = before ++ x :: after ∧ p x = true ∧ Forall (λ y, p y = false) before.
Proof.
  induction l as [|y l IH]; simpl.
  - split; [done|]. intros (b & a & Hl & _). by destruct b.
  - destruct (p y) eqn:Hy.
    + split.
      * intros [= ->]. by exists [], l.
      * intros (b & a & Hl & Hx & Hb). destruct b as [|z b]; simpl in Hl.
        -- by injection Hl as -> _.
        -- injection Hl as -> _. inversion Hb; congruence.
    + rewrite IH. split.
      * intros (b & a & -> & Hx & Hb). exists (y :: b), a. auto.
      * intros (b & a & Hl & Hx & Hb). destruct b as [|z b]; simpl in Hl.
        -- injection Hl as -> _. congruence.
        -- injection Hl as -> ->. inversion Hb; subst. by exists b, a.
Qed.

Lemma Array_find_None {A} (p : A → bool) (l : list A) :
  Array_find p l = None ↔ Forall (λ y, p y = false) l.
Proof.
  induction l as [|y l IH]; simpl.
  - split; [constructor|done].
  - destruct (p y) eqn:Hy.
    + split; [done|]. inversion 1; congruence.
    + rewrite IH. split; [by constructor|by inversion 1].
Qed.

Lemma String_eqb_eq (a b : string) : String.eqb a b = true ↔ a = b.
Proof. apply String.eqb_eq. Qed.

Lemma String_eqb_false (a b : string) : String.eqb a b = false ↔ a ≠ b.
Proof. apply String.eqb_neq. Qed.

(** ** Identity resolver *)

Section IdentityFacts.

Lemma in_key_class_alphabet (c : ascii) :
  in_key_class c = existsb (Ascii.eqb c) key_alphabet.
Proof.
  destruct c as [[] [] [] [] [] [] [] []]; vm_compute; reflexivity.
Qed.

Lemma sanitize_is_spec (s : string) : sanitize s = sanitize_spec s.
Proof.
  unfold sanitize_spec. induction s as [|c s IH]; [done|].
  simpl. rewrite IH. unfold sanitize_char.
  by rewrite in_key_class_alphabet.
Qed.

(** C9.  [getQuizStateKey] yields no identity exactly for a null config or
    an empty course id; otherwise the identity is
    ["quizState_" + courseId + "_" + sanitize(topicId ?? "full")], with
    every character outside [[A-Za-z0-9_-]] replaced by an underscore.  It
    depends on [(courseId, topicId)] only, and a null topic gives the
    [full] token.  The resolver is a function of its argument alone: it
    neither reads nor changes the store. *)
Theorem getQuizStateKey_identity (config : option QuizConfig) :
  (getQuizStateKey config = None ↔
     config = None ∨ ∃ c, config = Some c ∧ Identity.courseId c = "")
  ∧ (∀ c, config = Some c → Identity.courseId c ≠ "" →
       getQuizStateKey config =
         Some ("quizState_" +:+ Identity.courseId c +:+ "_"
               +:+ sanitize_spec (default "full" (Identity.topicId c))))
  ∧ (∀ c c', config = Some c →
       Identity.courseId c' = Identity.courseId c →
       Identity.topicId c' = Identity.topicId c →
       getQuizStateKey (Some c') = getQuizStateKey config)
  ∧ (∀ c, config = Some c → Identity.courseId c ≠ "" →
       Identity.topicId c = None →
       getQuizStateKey config =
         Some ("quizState_" +:+ Identity.courseId c +:+ "_full")).
Proof.
  repeat split.
  - destruct config as [c|]; [|by left]. simpl.
    destruct (String.eqb (Identity.courseId c) "") eqn:E; [|done].
    intros _. right. exists c. split; [done|]. by apply String_eqb_eq.
  - intros [->|(c & -> & Hc)]; [done|]. simpl.
    apply String_eqb_eq in Hc. by rewrite Hc.
  - intros c -> Hc. simpl. apply String_eqb_false in Hc. rewrite Hc.
    rewrite sanitize_is_spec. by destruct (Identity.topicId c).
  - intros c c' -> Hcourse Htopic. simpl. by rewrite Hcourse, Htopic.
  - intros c -> Hc Htopic. simpl. apply String_eqb_false in Hc.
    by rewrite Hc, Htopic.
Qed.

Lemma getQuizStateKey_identity_witness :
  getQuizStateKey (Some demo_topic_config)
    = Some "quizState_gcp-ace_IAM___Admin__v2_"
  ∧ getQuizStateKey
      (Some {| Identity.courseId := "gcp-ace";
               Identity.topicId := Some "IAM & Admin (v2)";
               Identity.type := full |})
    = getQuizStateKey (Some demo_topic_config)
  ∧ getQuizStateKey (@None QuizConfig) = None.
Proof.
  destruct (getQuizStateKey_identity (Some demo_topic_config))
    as (_ & Hkey & Hsame & _).
  destruct (getQuizStateKey_identity None) as (Hnone & _).
  split; [|split].
  - rewrite (Hkey demo_topic_config eq_refl); [reflexivity|discriminate].
  - apply (Hsame demo_topic_config); reflexivity.
  - apply Hnone. by left.
Defined.

End IdentityFacts.

(** ** Catalog lookup *)

Section CatalogFacts.

Context {A : Type} `{ToString A}.

(** C10.  [getQuestionById] compares identifiers after [String]
    coercion and returns the first item of the course that matches: a
    numeric id that is a safe integer and its decimal text resolve alike.
    It returns [undefined] exactly when the course id is missing, the
    course is unknown, or no item matches. *)
Theorem getQuestionById_first_match
    (courses : list Course) (courseId : option string) (questionId : A) :
  (∀ q, getQuestionById courses courseId questionId = Some q ↔
     ∃ c course before after,
       courseId = Some c ∧ c ≠ ""
       ∧ getCourseById courses (Some c) = Some course
       ∧ quizItems course = before ++ q :: after
       ∧ String_ (id q) = String_ questionId
       ∧ Forall (λ p, String_ (id p) ≠ String_ questionId) before)
  ∧ (getQuestionById courses courseId questionId = None ↔
       courseId = None ∨ courseId = Some ""
       ∨ getCourseById courses courseId = None
       ∨ ∃ course, getCourseById courses courseId = Some course
           ∧ Forall (λ p, String_ (id p) ≠ String_ questionId)
                    (quizItems course))
  ∧ (∀ n : Z,
       safe_integer n →
       getQuestionById courses courseId (IdNum n)
       = getQuestionById courses courseId (IdStr (pretty n))).
Proof.
  split; [|split].
  - intros q. unfold getQuestionById. destruct courseId as [c|].
    2:{ split; [done|]. by intros (? & ? & ? & ? & ? & _). }
    destruct (String.eqb c "") eqn:Ec.
    { apply String_eqb_eq in Ec. split; [done|].
      intros (c' & ? & ? & ? & [= <-] & Hne & _). done. }
    apply String_eqb_false in Ec.
    destruct (getCourseById courses (Some c)) as [course|] eqn:Hcourse.
    2:{ split; [done|].
        intros (c' & ? & ? & ? & [= <-] & _ & Hc & _). congruence. }
    rewrite Array_find_Some. split.
    + intros (before & after & Hitems & Hq & Hbefore).
      exists c, course, before, after. repeat split; try done.
      * by apply String_eqb_eq.
      * eapply Forall_impl; [exact Hbefore|]. intros p Hp. simpl in Hp.
        by apply String_eqb_false.
    + intros (c' & course' & before & after & [= <-] & _ & Hc & Hitems & Hq & Hb).
      assert (course' = course) as -> by congruence.
      exists before, after. repeat split; try done.
      * by apply String_eqb_eq.
      * eapply Forall_impl; [exact Hb|]. intros p Hp. simpl.
        by apply String_eqb_false.
  - unfold getQuestionById. destruct courseId as [c|]; [|by split; [left|]].
    destruct (String.eqb c "") eqn:Ec.
    { apply String_eqb_eq in Ec. subst c. split; [by right; left|done]. }
    destruct (getCourseById courses (Some c)) as [course|] eqn:Hcourse.
    2:{ split; [by right; right; left|done]. }
    rewrite Array_find_None. split.
    + intros Hall. right; right; right. exists course. split; [done|].
      eapply Forall_impl; [exact Hall|]. intros p Hp. simpl in Hp.
      by apply String_eqb_false.
    + intros [?|[[= ->]|[?|(course' & [= <-] & Hall)]]]; try done.
      eapply Forall_impl; [exact Hall|]. intros p Hp. simpl.
      by apply String_eqb_false.
  - intros n _. reflexivity.
Qed.

End CatalogFacts.

Lemma getQuestionById_first_match_witness :
  getQuestionById demo_courses (Some "demo") (IdStr "2") = Some demo_q2
  ∧ getQuestionById demo_courses (Some "demo") (IdNum 2) = Some demo_q2
  ∧ getQuestionById demo_courses (Some "") (IdNum 2) = None
  ∧ getQuestionById demo_courses (Some "other") (IdNum 2) = None
  ∧ getQuestionById demo_courses (Some "demo") (IdNum 7) = None.
Proof.
  destruct (getQuestionById_first_match demo_courses (Some "demo") (IdStr "2"))
    as (Hfound & _ & _).
  destruct (getQuestionById_first_match demo_courses (Some "demo") (IdNum 2))
    as (_ & _ & Hcoerce).
  assert (getQuestionById demo_courses (Some "demo") (IdStr "2")
          = Some demo_q2) as Hstr.
  { apply Hfound. exists "demo", demo_course, [demo_q1], [demo_q3].
    repeat split; try done. by repeat constructor. }
  split; [exact Hstr|].
  split; [by rewrite (Hcoerce 2%Z ltac:(unfold safe_integer; lia))|].
  split; [|split].
  - apply (proj1 (proj2 (getQuestionById_first_match
                           demo_courses (Some "") (IdNum 2)))).
    by right; left.
  - apply (proj1 (proj2 (getQuestionById_first_match
                           demo_courses (Some "other") (IdNum 2)))).
    by right; right; left.
  - apply (proj1 (proj2 (getQuestionById_first_match
                           demo_courses (Some "demo") (IdNum 7)))).
    right; right; right. eexists. split; [reflexivity|].
    by repeat constructor.
Defined.

(** ** Final scoring *)

Section FinishFacts.

Import Quiz.

Lemma finishLoop_spec (userAnswers : list Answer) (questions : list QuizItem) :
  ∀ index score details,
    finishLoop userAnswers index questions (score, details)
    = ((score + correctCount
                  (imap (λ i, detailOf userAnswers (index + i)) questions))%Z,
       details ++ imap (λ i, detailOf userAnswers (index + i)) questions).
Proof.
  induction questions as [|q rest IH]; intros index score details.
  - simpl. unfold correctCount. simpl. f_equal; [lia|by rewrite app_nil_r].
  - cbn [finishLoop finishStep]. rewrite IH. cbn [imap].
    rewrite Nat.add_0_r.
    assert (imap (λ i, detailOf userAnswers (S index + i)) rest
            = imap ((λ i, detailOf userAnswers (index + i)) ∘ S) rest) as ->.
    { apply imap_ext. intros i x _. simpl. f_equal. lia. }
    fold (detailOf userAnswers index q).
    f_equal.
    + unfold correctCount. rewrite filter_cons. simpl.
      destruct (finalCorrect q (userAnswers !! index)); simpl; lia.
    + by rewrite <- app_assoc.
Qed.

Lemma Set_has_elem (members : list string) (key : string) :
  Set_has members key = true ↔ key ∈ members.
Proof.
  unfold Set_has. rewrite existsb_exists. split.
  - intros (x & Hin & Heq). apply String_eqb_eq in Heq. subst.
    by apply list_elem_of_In.
  - intros Hin. exists key. split; [by apply list_elem_of_In|].
    by apply String_eqb_eq.
Qed.

Lemma includes_elem (correctAnswers : list string) (v : Answer) :
  includes correctAnswers v = true ↔ ∃ s, v = AStr s ∧ s ∈ correctAnswers.
Proof.
  destruct v as [|s|keys|members]; simpl;
    try (split; [done|by intros (? & ? & _)]).
  rewrite existsb_exists. split.
  - intros (x & Hin & Heq). apply String_eqb_eq in Heq. subst.
    exists x. split; [done|]. by apply list_elem_of_In.
  - intros (s' & [= <-] & Hin). exists s. split; [by apply list_elem_of_In|].
    by apply String_eqb_eq.
Qed.

Lemma exactMatch_elem (correctAnswers members : list string) :
  exactMatch correctAnswers members = true ↔
  length members = length correctAnswers
  ∧ ∀ ca, ca ∈ correctAnswers → ca ∈ members.
Proof.
  unfold exactMatch. rewrite andb_true_iff, Nat.eqb_eq, forallb_forall.
  split.
  - intros [Hlen Hall]. split; [done|]. intros ca Hca.
    apply Set_has_elem, Hall. by apply list_elem_of_In.
  - intros [Hlen Hall]. split; [done|]. intros ca Hca.
    apply Set_has_elem, Hall. by apply list_elem_of_In.
Qed.

(** [finishQuiz] completes once the session is loaded, started and not
    empty. *)
Lemma finishQuiz_runs (config : QuizConfig) (endTime stamp : Z)
    (st : Session) (w : World) :
  is_Some (startTime st) → currentQuestions st ≠ [] → isLoaded st = true →
  is_Some (finishQuiz config endTime stamp st w).
Proof.
  intros [start Hstart] Hquestions Hloaded. unfold finishQuiz.
  rewrite Hstart, Hloaded.
  destruct (currentQuestions st) as [|q rest]; [done|]. cbn [length Nat.eqb orb negb].
  by destruct (finishLoop _ _ _ _).
Qed.

(** How [finishQuiz] scores.  When it completes, the detail of every
    question is computed from the stored answer alone.  For a
    single-select question (at most one correct key) it is correct iff
    [correctAnswers.includes(answer ?? '')]; a null answer therefore counts
    as the empty string and is correct exactly when the empty string is a
    listed key.  For a multi-select question it is correct iff the answer
    is a set of the size of [correctAnswers] that has every correct key.
    The score is the number of correct details, and nothing of the cached
    statuses, checked flags, feedback flag or current index enters the
    result. *)
Theorem finishQuiz_recomputes_correctness
    (config : QuizConfig) (endTime stamp : Z) (st : Session) (w w' : World)
    (r : QuizResults) :
  finishQuiz config endTime stamp st w = Some (w', r) →
  (∀ i q, currentQuestions st !! i = Some q →
     ∃ a, answers r !! i = Some a
       ∧ questionId a = id q
       ∧ userAnswer a = userAnswers st !! i
       ∧ ((length (correctAnswer q) ≤ 1)%nat →
            (isCorrect a = true ↔
               ∃ s, orEmpty (userAnswers st !! i) = AStr s
                    ∧ s ∈ correctAnswer q)
            ∧ (orEmpty (userAnswers st !! i) = AStr "" →
                 (isCorrect a = true ↔ "" ∈ correctAnswer q)))
       ∧ ((length (correctAnswer q) > 1)%nat →
            (isCorrect a = true ↔
               ∃ members, userAnswers st !! i = Some (ASet members)
                 ∧ length members = length (correctAnswer q)
                 ∧ ∀ ca, ca ∈ correctAnswer q → ca ∈ members)))
  ∧ length (answers r) = length (currentQuestions st)
  ∧ score r = correctCount (answers r)
  ∧ (∀ index feedback statuses checked,
       finishQuiz config endTime stamp
         {| currentQuestions := currentQuestions st;
            currentQuestionIndex := index;
            userAnswers := userAnswers st;
            startTime := startTime st;
            showFeedbackForSingleChoice := feedback;
            answerStatuses := statuses;
            checkedAnswers := checked;
            isLoaded := isLoaded st |} w
       = Some (w', r)).
Proof.
  unfold finishQuiz. destruct (startTime st) as [start|] eqn:Hstart; [|done].
  destruct ((length (currentQuestions st) =? 0)%nat || negb (isLoaded st))
    eqn:Hguard; [done|].
  rewrite finishLoop_spec. simpl. intros [= <- <-]. simpl.
  split; [|split; [|split]].
  - intros i q Hq. exists (detailOf (userAnswers st) i q).
    split; [by rewrite list_lookup_imap, Hq|].
    split; [done|]. split; [done|].
    unfold detailOf, finalCorrect, isMultiSelect. simpl. split.
    + intros Hlen.
      destruct (1 <? length (correctAnswer q))%nat eqn:E;
        [apply Nat.ltb_lt in E; lia|].
      fold (orEmpty (userAnswers st !! i)). split.
      * apply includes_elem.
      * intros ->. rewrite includes_elem. split.
        -- by intros (s & [= <-] & Hin).
        -- intros Hin. by exists "".
    + intros Hlen.
      destruct (1 <? length (correctAnswer q))%nat eqn:E;
        [|apply Nat.ltb_ge in E; lia].
      destruct (userAnswers st !! i) as [[|s|keys|members]|];
        try (split; [done|by intros (? & ? & _)]).
      rewrite exactMatch_elem. split.
      * intros [Hl Hall]. by exists members.
      * by intros (m & [= <-] & Hl & Hall).
  - by rewrite length_imap.
  - lia.
  - intros index feedback statuses checked.
    cbn [startTime currentQuestions userAnswers isLoaded].
    by rewrite Hguard, finishLoop_spec.
Qed.

End FinishFacts.

Section FinishExamples.

Import Quiz.

Lemma finishQuiz_recomputes_correctness_witness :
  ∃ w' r,
    finishQuiz demo_config 61400 61500 demo_session empty_world = Some (w', r)
    ∧ length (answers r) = 2%nat
    ∧ score r = correctCount (answers r)
    ∧ score r = 2.
Proof.
  eexists _, _. split; [reflexivity|].
  destruct (finishQuiz_recomputes_correctness
              demo_config 61400 61500 demo_session empty_world _ _ eq_refl)
    as (_ & Hlen & Hscore & _).
  split; [exact Hlen|]. split; [exact Hscore|]. reflexivity.
Defined.

(** C1, at the failing input.  The course of [blank_courses] has a
    single-select question whose one correct key is the empty string.  The
    load effect resumes the state stored in [unanswered_world] at the last
    question, with the first question unanswered (its answer is null and
    its resumed status is null) and [Finish Quiz] shown and enabled;
    [finishQuiz] then marks the unanswered question correct and counts it
    in the score. *)
Theorem finishQuiz_null_answer_counted_correct :
  (∀ rng prev,
     loadEffect blank_courses blank_config rng 5000 prev unanswered_world
     = (unanswered_world, Some unanswered_session))
  ∧ Handlers.finishEnabled unanswered_session
  ∧ currentQuestions unanswered_session !! 0%nat = Some blank_q
  ∧ (length (correctAnswer blank_q) ≤ 1)%nat
  ∧ userAnswers unanswered_session !! 0%nat = Some ANull
  ∧ answerStatuses unanswered_session !! 0%nat = Some None
  ∧ ∃ w' r d,
      finishQuiz blank_config 61400 61500 unanswered_session unanswered_world
      = Some (w', r)
      ∧ answers r !! 0%nat = Some d
      ∧ userAnswer d = Some ANull
      ∧ isCorrect d = true
      ∧ score r = 2
      ∧ totalQuestions r = 2.
Proof.
  split; [by intros rng prev|].
  split; [unfold Handlers.finishEnabled; cbn; repeat split; [by eexists|lia]|].
  do 4 (split; [done|]).
  eexists _, _, _. split; [reflexivity|]. by repeat split.
Qed.

End FinishExamples.

(** ** Finishing and the saved state *)

Section ClearFacts.

Import Quiz.

Lemma loadQuizState_absent (courses : list Course) (config : QuizConfig)
    (w : World) (key : string) :
  getQuizStateKey (Some config) = Some key →
  localStorage w !! key = None →
  loadQuizState courses config w = (w, None).
Proof.
  intros Hkey Habsent. unfold loadQuizState. rewrite Hkey, Habsent.
  by destruct (window_defined w).
Qed.

(** C3.  When [finishQuiz] calls [onComplete], the saved state of the
    quiz is already gone: in the world of that call [loadQuizState] returns
    null, and the entry exists neither in the store nor in the in-memory
    index. *)
Theorem finishQuiz_clears_saved_state
    (courses : list Course) (config : QuizConfig) (endTime stamp : Z)
    (st : Session) (w w' : World) (r : QuizResults) :
  finishQuiz config endTime stamp st w = Some (w', r) →
  loadQuizState courses config w' = (w', None)
  ∧ (∀ key, getQuizStateKey (Some config) = Some key →
       window_defined w = true →
       localStorage w' !! key = None ∧ inProgressQuizzes w' !! key = None).
Proof.
  unfold finishQuiz. destruct (startTime st) as [start|]; [|done].
  destruct ((length (currentQuestions st) =? 0)%nat || negb (isLoaded st));
    [done|].
  destruct (finishLoop _ _ _ _) as [total details].
  destruct (getQuizStateKey (Some config)) as [key|] eqn:Hkey;
    intros [= <- _].
  - unfold saveQuizState. rewrite Hkey.
    destruct (window_defined w) eqn:Hwin; cbn [negb].
    + split.
      * eapply loadQuizState_absent; [exact Hkey|]. simpl.
        apply lookup_delete_eq.
      * intros key' [= <-] _. simpl. split; apply lookup_delete_eq.
    + split; [|done]. unfold loadQuizState. by rewrite Hkey, Hwin.
  - split; [|done]. unfold loadQuizState. by rewrite Hkey.
Qed.

Lemma finishQuiz_clears_saved_state_witness :
  let w := saveQuizState demo_config (Some demo_saved) empty_world in
  localStorage w !! "quizState_demo_t1" ≠ None
  ∧ ∃ w' r,
      finishQuiz demo_config 61400 61500 demo_session w = Some (w', r)
      ∧ loadQuizState demo_courses demo_config w' = (w', None)
      ∧ localStorage w' !! "quizState_demo_t1" = None.
Proof.
  split; [by vm_compute|].
  eexists _, _. split; [reflexivity|].
  destruct (finishQuiz_clears_saved_state demo_courses
              demo_config 61400 61500 demo_session
              (saveQuizState demo_config (Some demo_saved) empty_world)
              _ _ eq_refl) as [Hload Hgone].
  split; [exact Hload|].
  exact (proj1 (Hgone "quizState_demo_t1" eq_refl eq_refl)).
Defined.

End ClearFacts.

(** ** Loading corrupted entries *)

Section CorruptionFacts.

Lemma prop_is_object (parsed : json) (name : string) (v : json) :
  prop parsed name = Some v → ∃ props, parsed = JObj props.
Proof. destruct parsed; try done. by eexists. Qed.

Lemma parseAndValidate_throws (courses : list Course) (config : QuizConfig)
    (key : string) (stored : text) :
  (∀ parsed, JSON_parse stored = Normal parsed → ¬ structurally_valid parsed) →
  ∃ message, parseAndValidate courses config key stored = Throw message.
Proof.
  intros Hbad. unfold parseAndValidate.
  destruct (JSON_parse stored) as [parsed|e] eqn:Hparse; [|by eexists].
  specialize (Hbad parsed eq_refl).
  destruct (truthy parsed && is_number (prop parsed "currentIndex")) eqn:Hnum;
    [|by destruct (as_array (prop parsed "userAnswers")),
                 (as_array (prop parsed "questionIds")); eexists].
  destruct (as_array (prop parsed "userAnswers")) as [answers|] eqn:Hans;
    [|by eexists].
  destruct (as_array (prop parsed "questionIds")) as [ids|] eqn:Hids;
    [|by eexists].
  destruct (length ids =? length answers)%nat eqn:Hlen; [|by eexists].
  exfalso. apply Hbad.
  apply andb_true_iff in Hnum as [_ Hnum].
  destruct (prop parsed "currentIndex") as [[| |index| | |]|] eqn:Hidx;
    try done.
  destruct (prop parsed "userAnswers") as [[| | | |answers'|]|] eqn:Ha;
    try done.
  destruct (prop parsed "questionIds") as [[| | | |ids'|]|] eqn:Hi;
    try done.
  injection Hans as ->. injection Hids as ->.
  exists index, answers, ids. repeat split; try done. by apply Nat.eqb_eq.
Qed.

(** C7.  If the text stored under the quiz's key is not JSON, or parses
    to a value that fails structural validation, [loadQuizState] returns
    null (it returns: nothing is thrown to the caller), and the key is
    removed from the store. *)
Theorem loadQuizState_removes_corrupted
    (courses : list Course) (config : QuizConfig) (w : World)
    (key : string) (stored : text) :
  window_defined w = true →
  getQuizStateKey (Some config) = Some key →
  localStorage w !! key = Some stored →
  (∀ parsed, JSON_parse stored = Normal parsed → ¬ structurally_valid parsed) →
  ∃ w', loadQuizState courses config w = (w', None)
        ∧ localStorage w' !! key = None
        ∧ (∀ other, other ≠ key →
             localStorage w' !! other = localStorage w !! other).
Proof.
  intros Hwin Hkey Hstored Hbad.
  destruct (parseAndValidate_throws courses config key stored Hbad)
    as [message Hthrow].
  exists (removeItem key w). unfold loadQuizState.
  rewrite Hkey, Hwin, Hstored, Hthrow. simpl. split; [done|]. split.
  - apply lookup_delete_eq.
  - intros other Hne. by apply lookup_delete_ne.
Qed.

Lemma loadQuizState_removes_corrupted_witness :
  (∃ w', loadQuizState demo_courses demo_config garbled_world = (w', None)
         ∧ localStorage w' !! "quizState_demo_t1" = None)
  ∧ (∃ w', loadQuizState demo_courses demo_config mismatched_world = (w', None)
           ∧ localStorage w' !! "quizState_demo_t1" = None).
Proof.
  split.
  - destruct (loadQuizState_removes_corrupted demo_courses demo_config
                garbled_world "quizState_demo_t1" (Unparsable "{currentIndex:")
                eq_refl eq_refl eq_refl) as (w' & Hload & Hgone & _).
    + intros parsed Hparse. discriminate Hparse.
    + by exists w'.
  - destruct (loadQuizState_removes_corrupted demo_courses demo_config
                mismatched_world "quizState_demo_t1" _
                eq_refl eq_refl eq_refl) as (w' & Hload & Hgone & _).
    + intros parsed [= <-] (index & answers & ids & _ & Hans & Hids & Hlen).
      injection Hans as <-. injection Hids as <-. discriminate Hlen.
    + by exists w'.
Defined.

End CorruptionFacts.

(** ** Resuming a saved state *)

Section ResumeFacts.

Import Quiz.

Lemma length_omap_le {A B} (f : A → option B) (l : list A) :
  (length (omap f l) ≤ length l)%nat.
Proof.
  induction l as [|x l IH]; csimpl; [lia|].
  destruct (f x); csimpl; lia.
Qed.

(** The restored index is the saved one whenever the saved one is below
    the number of loaded questions: it is never raised. *)
Lemma resume_index_below (courses : list Course) (courseId : string)
    (s : SavedQuizState) (now : Z) :
  (Types.currentIndex s
     < Z.of_nat (length (loadedQuestionsOf courses courseId s)))%Z →
  currentQuestionIndex (resume courses courseId s now) = Types.currentIndex s.
Proof.
  intros Hlt. unfold resume. cbn [currentQuestionIndex].
  apply Z.ltb_lt in Hlt. by rewrite Hlt.
Qed.

(** For a saved index that is not negative the restored index lies within
    the saved question list. *)
Lemma resume_index_in_range (courses : list Course) (courseId : string)
    (s : SavedQuizState) (now : Z) :
  (0 ≤ Types.currentIndex s)%Z →
  (0 < length (Types.questionIds s))%nat →
  (0 ≤ currentQuestionIndex (resume courses courseId s now)
     < Z.of_nat (length (Types.questionIds s)))%Z.
Proof.
  intros Hnonneg Hids. unfold resume. cbn [currentQuestionIndex].
  pose proof (length_omap_le
                (λ qid, getQuestionById courses (Some courseId) qid)
                (Types.questionIds s)) as Hle.
  fold (loadedQuestionsOf courses courseId s) in Hle.
  destruct (Types.currentIndex s
              <? Z.of_nat (length (loadedQuestionsOf courses courseId s)))%Z
    eqn:E.
  - apply Z.ltb_lt in E. lia.
  - lia.
Qed.

(** C6, at the failing input.  The entry of [negative_world] passes
    [loadQuizState]'s validation and is read as [negative_saved]; resuming
    from it leaves the current index at [-1], where there is no current
    question. *)
Theorem resume_negative_index_not_clamped :
  (∃ loaded,
     loadQuizState demo_courses demo_config negative_world
       = (negative_world, Some loaded)
     ∧ as_SavedQuizState loaded = Some negative_saved)
  ∧ (∀ rng prev,
       loadEffect demo_courses demo_config rng 5000 prev negative_world
       = (negative_world,
          Some (resume demo_courses "demo" negative_saved 5000)))
  ∧ length (Types.questionIds negative_saved) = 2%nat
  ∧ currentQuestionIndex (resume demo_courses "demo" negative_saved 5000) = -1
  ∧ at_index (currentQuestions (resume demo_courses "demo" negative_saved 5000))
             (currentQuestionIndex
                (resume demo_courses "demo" negative_saved 5000))
    = None.
Proof.
  split; [eexists; split; reflexivity|]. repeat split.
Qed.

Lemma restoreStatus_multi (loaded : list QuizItem) (i : nat) (q : QuizItem)
    (a : Answer) :
  loaded !! i = Some q →
  isMultiSelect (correctAnswer q) = true →
  restoreStatus loaded i a = None.
Proof. intros Hq Hmulti. unfold restoreStatus. by rewrite Hq, Hmulti. Qed.

(** C5 (amended).  On resume the status of a multi-select question is
    null whatever its checked flag and stored answer; a single-select
    question whose stored answer is not null is [correct] iff that answer
    is among the correct keys, and [incorrect] otherwise; a single-select
    question whose stored answer is null has a null status. *)
Theorem resume_statuses (courses : list Course) (courseId : string)
    (s : SavedQuizState) (now : Z) (i : nat) (q : QuizItem) (stored : Answer) :
  loadedQuestionsOf courses courseId s !! i = Some q →
  Types.userAnswers s !! i = Some stored →
  let status := answerStatuses (resume courses courseId s now) !! i in
  (isMultiSelect (correctAnswer q) = true → status = Some None)
  ∧ (isMultiSelect (correctAnswer q) = false →
       (stored = ANull → status = Some None)
       ∧ (stored ≠ ANull →
            ∃ verdict, status = Some (Some verdict)
              ∧ (verdict = correct ↔
                   ∃ key, stored = AStr key ∧ key ∈ correctAnswer q))).
Proof.
  intros Hq Hstored. unfold resume. cbn [answerStatuses].
  rewrite !list_lookup_imap, Hstored. cbn [fmap option_fmap option_map].
  unfold restoreAnswer, restoreStatus. rewrite Hq. cbv zeta. split.
  - intros ->. by destruct stored.
  - intros Hsingle. rewrite Hsingle.
    assert (match stored with
            | AArr keys => stored
            | _ => stored
            end = stored) as -> by by destruct stored.
    cbn [orb]. split.
    + by intros ->.
    + intros Hnn.
      destruct stored as [|key|keys|members]; [done| | |]; simpl.
      * destruct (existsb (String.eqb key) (correctAnswer q)) eqn:E;
          eexists; (split; [reflexivity|]).
        -- split; [|done]. intros _. exists key. split; [done|].
           apply existsb_exists in E as (x & Hin & Heq).
           apply String_eqb_eq in Heq. subst. by apply list_elem_of_In.
        -- split; [done|]. intros (key' & [= <-] & Hin). exfalso.
           assert (existsb (String.eqb key) (correctAnswer q) = true);
             [|congruence].
           apply existsb_exists. exists key.
           split; [by apply list_elem_of_In|by apply String_eqb_eq].
      * eexists. split; [reflexivity|]. split; [done|].
        by intros (? & ? & _).
      * eexists. split; [reflexivity|]. split; [done|].
        by intros (? & ? & _).
Qed.

Lemma resume_statuses_witness :
  answerStatuses (resume demo_courses "demo" checked_saved 5000) !! 0%nat
    = Some None
  ∧ answerStatuses (resume demo_courses "demo" demo_saved 5000) !! 0%nat
    = Some (Some correct).
Proof.
  split.
  - exact (proj1 (resume_statuses demo_courses "demo" checked_saved 5000
                    0 demo_q2 (ASet ["A"; "B"]) eq_refl eq_refl) eq_refl).
  - destruct (proj2 (resume_statuses demo_courses "demo" demo_saved 5000
                       0 demo_q1 (AStr "A") eq_refl eq_refl) eq_refl)
      as [_ Hset].
    destruct Hset as (verdict & Hstatus & Hverdict); [discriminate|].
    rewrite Hstatus. do 2 f_equal. apply Hverdict.
    exists "A". split; [reflexivity|]. by apply list_elem_of_here.
Defined.

(** C5, as first stated: a checked multi-select question would resume
    with its status recomputed from the stored answer.  For
    [checked_saved], whose stored set matches the correct keys exactly, the
    resumed status is null. *)
Lemma resume_checked_multi_status_null :
  ¬ (∀ courses courseId s now i q flags members,
       loadedQuestionsOf courses courseId s !! i = Some q →
       isMultiSelect (correctAnswer q) = true →
       Types.checkedAnswers s = Some flags →
       flags !! i = Some true →
       Types.userAnswers s !! i = Some (ASet members) →
       answerStatuses (resume courses courseId s now) !! i
       = Some (Some (if exactMatch (correctAnswer q) members
                     then correct else incorrect))).
Proof.
  intros Hclaim.
  assert (H := Hclaim demo_courses "demo" checked_saved 5000 0%nat demo_q2
                 [true] ["A"; "B"] eq_refl eq_refl eq_refl eq_refl eq_refl).
  discriminate H.
Qed.

End ResumeFacts.

(** ** Saving and loading *)

Section RoundTripFacts.

Lemma existsb_same_value_zero_JStr (x : string) (acc : list string) :
  existsb (same_value_zero (JStr x)) (JStr <$> acc)
  = existsb (String.eqb x) acc.
Proof. induction acc as [|y acc IH]; [done|]. csimpl. by rewrite IH. Qed.

Lemma Set_add_all_JStr (keys : list string) :
  ∀ acc,
    Set_add_all same_value_zero (JStr <$> acc) (JStr <$> keys)
    = JStr <$> Set_add_all String.eqb acc keys.
Proof.
  induction keys as [|x keys IH]; intros acc; [done|].
  csimpl. rewrite existsb_same_value_zero_JStr.
  destruct (existsb (String.eqb x) acc); [apply IH|].
  rewrite <- IH. by rewrite fmap_app.
Qed.

Lemma new_Set_JStr (keys : list string) :
  new_Set same_value_zero (JStr <$> keys) = JStr <$> new_Set String.eqb keys.
Proof. apply (Set_add_all_JStr keys []). Qed.

Lemma existsb_eqb_not_elem (x : string) (acc : list string) :
  x ∉ acc → existsb (String.eqb x) acc = false.
Proof.
  intros Hnot. destruct (existsb (String.eqb x) acc) eqn:E; [|done].
  apply existsb_exists in E as (y & Hin & Heq). apply String_eqb_eq in Heq.
  subst y. exfalso. by apply Hnot, list_elem_of_In.
Qed.

Lemma Set_add_all_NoDup (members : list string) :
  ∀ acc, NoDup (acc ++ members) →
         Set_add_all String.eqb acc members = acc ++ members.
Proof.
  induction members as [|x members IH]; intros acc Hnd.
  - by rewrite app_nil_r.
  - cbn [Set_add_all].
    assert (x ∉ acc) as Hx.
    { apply NoDup_app in Hnd as (_ & Hdisj & _). intros Hin.
      apply (Hdisj x Hin). apply list_elem_of_here. }
    rewrite (existsb_eqb_not_elem _ _ Hx).
    rewrite IH; rewrite <- app_assoc; done.
Qed.

Lemma new_Set_NoDup (members : list string) :
  NoDup members → new_Set String.eqb members = members.
Proof. intros Hnd. by apply (Set_add_all_NoDup members []). Qed.

Lemma getQuestionById_json_of_ident (courses : list Course)
    (courseId : option string) (i : ident) :
  getQuestionById courses courseId (json_of_ident i)
  = getQuestionById courses courseId i.
Proof. by destruct i. Qed.

Lemma multiSelectById_isMultiSelect (courses : list Course)
    (config : QuizConfig) (qid : ident) :
  multiSelectById courses config qid
  = isMultiSelect
      match getQuestionById courses (Some (Identity.courseId config)) qid with
      | Some q => correctAnswer q
      | None => []
      end.
Proof.
  unfold multiSelectById, isMultiSelect.
  destruct (getQuestionById _ _ _) as [q|]; [|done].
  case_bool_decide as Hlt.
  - symmetry. by apply Nat.ltb_lt.
  - symmetry. by apply Nat.ltb_ge, Nat.nlt_ge.
Qed.

Lemma restoreAnswer_roundtrip (courses : list Course) (config : QuizConfig)
    (qid : ident) (rest : list json) (a : Answer) :
  answer_ok a →
  answer_of_loaded
    (restoreStoredAnswer courses config (json_of_ident qid :: rest) 0
       (json_of_answer (answerForStorage a)))
  = Some (roundtripAnswer (multiSelectById courses config qid) a).
Proof.
  intros Hok. rewrite multiSelectById_isMultiSelect.
  unfold restoreStoredAnswer.
  cbn [lookup list_lookup]. rewrite getQuestionById_json_of_ident.
  destruct (isMultiSelect _) eqn:Hmulti;
    destruct a as [|s|keys|members]; cbn; try done.
  - rewrite new_Set_JStr.
    by rewrite (mapM_fmap_Some string_of_json JStr).
  - rewrite new_Set_JStr, (new_Set_NoDup members Hok).
    by rewrite (mapM_fmap_Some string_of_json JStr).
Qed.

Lemma restored_answers (courses : list Course) (config : QuizConfig) :
  ∀ ids answers,
    length answers = length ids →
    Forall answer_ok answers →
    mapM answer_of_loaded
      (imap (restoreStoredAnswer courses config (json_of_ident <$> ids))
            (json_of_answer <$> (answerForStorage <$> answers)))
    = Some (zip_with
              (λ qid a, roundtripAnswer (multiSelectById courses config qid) a)
              ids answers).
Proof.
  induction ids as [|qid ids IH]; intros [|a answers] Hlen Hok; try done.
  rewrite !fmap_cons, imap_cons. cbn [zip_with].
  inversion Hok as [|? ? Ha Hrest]; subst.
  injection Hlen as Hlen.
  rewrite (imap_ext _
             (restoreStoredAnswer courses config (json_of_ident <$> ids)))
    by done.
  cbn [mapM]. rewrite restoreAnswer_roundtrip by done.
  cbn [mbind option_bind]. rewrite IH by done. done.
Qed.

(** [String] does not throw on a number or a string, so looking up a
    saved question id does not throw. *)
Lemma getQuestionById_throws_quiet (courses : list Course)
    (courseId : option string) (v : json) :
  String_throws v = false → getQuestionById_throws courses courseId v = false.
Proof.
  intros Hv. unfold getQuestionById_throws. destruct courseId as [c|]; [|done].
  destruct (String.eqb c ""); [done|].
  destruct (getCourseById courses (Some c)) as [course|]; [|done].
  by destruct (quizItems course).
Qed.

Lemma getQuestionById_throws_idents (courses : list Course)
    (courseId : option string) (ids : list ident) :
  existsb (getQuestionById_throws courses courseId) (json_of_ident <$> ids)
  = false.
Proof.
  induction ids as [|i ids IH]; [done|]. rewrite fmap_cons. cbn [existsb].
  rewrite IH, getQuestionById_throws_quiet; [done|by destruct i].
Qed.

(** The loaded state for a text that [saveQuizState] wrote. *)
Lemma parseAndValidate_stringify (courses : list Course) (config : QuizConfig)
    (key : string) (st : SavedQuizState) :
  length (userAnswers st) = length (questionIds st) →
  parseAndValidate courses config key (JSON_stringify st)
  = Normal
      {| loaded_parsed :=
           match json_of_state st with JObj props => props | _ => [] end;
         loaded_userAnswers :=
           imap (restoreStoredAnswer courses config
                   (json_of_ident <$> questionIds st))
                (json_of_answer <$> userAnswers st);
         loaded_checkedAnswers :=
           JArr (JBool <$> backfill (length (questionIds st))
                             (checkedAnswers st)) |}.
Proof.
  intros Hlen. unfold parseAndValidate, JSON_stringify, json_of_state.
  cbn [JSON_parse truthy prop assoc app String.eqb Ascii.eqb Bool.eqb
       is_number as_array andb].
  rewrite !length_fmap, Hlen, Nat.eqb_refl, getQuestionById_throws_idents.
  destruct (checkedAnswers st) as [flags|];
    cbn [assoc app String.eqb Ascii.eqb Bool.eqb backfill].
  - cbn [truthy andb length_prop]. rewrite length_fmap.
    destruct (decide (length flags = length (questionIds st))) as [Heq|Hne].
    + rewrite bool_decide_eq_true_2 by (by rewrite Heq). done.
    + rewrite bool_decide_eq_false_2; [|intros [= Hz]; lia].
      do 2 f_equal. by rewrite fmap_replicate.
  - do 2 f_equal. by rewrite fmap_replicate.
Qed.

(** Saving writes the text of the state, with the config's course and
    topic, under the quiz's key, and records the state in the index. *)
Lemma saveQuizState_writes (config : QuizConfig) (s : SavedQuizState)
    (w : World) (key : string) :
  window_defined w = true →
  getQuizStateKey (Some config) = Some key →
  let w1 := saveQuizState config (Some s) w in
  window_defined w1 = true
  ∧ localStorage w1 !! key
    = Some (JSON_stringify
              {| currentIndex := currentIndex s;
                 userAnswers := answerForStorage <$> userAnswers s;
                 startTime := startTime s;
                 questionIds := questionIds s;
                 courseId := Identity.courseId config;
                 topicId := Identity.topicId config;
                 checkedAnswers := checkedAnswers s |})
  ∧ inProgressQuizzes w1 !! key = Some s.
Proof.
  intros Hwin Hkey. unfold saveQuizState. rewrite Hkey, Hwin. cbn [negb].
  unfold setInProgressQuizzes, setItem. cbn.
  split; [done|]. split; apply lookup_insert_eq.
Qed.

(** Whatever course and topic the state names, loading after saving
    returns the round trip of the state under the config's course and
    topic. *)
Lemma save_load_under_config (courses : list Course) (config : QuizConfig)
    (s : SavedQuizState) (w : World) (key : string) :
  window_defined w = true →
  getQuizStateKey (Some config) = Some key →
  length (userAnswers s) = length (questionIds s) →
  Forall answer_ok (userAnswers s) →
  let w1 := saveQuizState config (Some s) w in
  ∃ loaded,
    loadQuizState courses config w1 = (w1, Some loaded)
    ∧ as_SavedQuizState loaded
      = Some (roundtrip courses config (underConfig config s)).
Proof.
  intros Hwin Ekey Hlen Hok w1.
  destruct (saveQuizState_writes config s w key Hwin Ekey)
    as (Hwin1 & Hstored & _).
  fold w1 in Hwin1, Hstored.
  eexists. unfold loadQuizState. rewrite Ekey, Hwin1, Hstored. cbn [negb].
  rewrite parseAndValidate_stringify
    by (cbn [userAnswers questionIds]; by rewrite length_fmap).
  split; [reflexivity|].
  unfold as_SavedQuizState, json_of_state.
  cbn [loaded_parsed loaded_userAnswers loaded_checkedAnswers
       currentIndex userAnswers startTime questionIds courseId topicId
       checkedAnswers assoc app String.eqb Ascii.eqb Bool.eqb as_array].
  rewrite (restored_answers courses config _ _ Hlen Hok).
  cbn [mbind option_bind].
  rewrite (mapM_fmap_Some ident_of_json json_of_ident) by (by intros []).
  rewrite (mapM_fmap_Some bool_of_json JBool) by done.
  cbn [mbind option_bind].
  unfold roundtrip, underConfig. cbn.
  by destruct (startTime s), (Identity.topicId config).
Qed.

(** C2 (amended).  For a config with a resolvable identity and a
    well-formed state [s], loading after saving returns
    [reloaded courses config s]: [s] with the config's course and topic,
    with each answer stored as an array turned into a set exactly when the
    question found by its persisted id is multi-select, each other answer
    kept as a string or made null, and [checkedAnswers] backfilled.  The
    load leaves the store as the save left it. *)
Theorem save_load_roundtrip (courses : list Course) (config : QuizConfig)
    (s : SavedQuizState) (w : World) :
  window_defined w = true →
  getQuizStateKey (Some config) ≠ None →
  well_formed s →
  let w1 := saveQuizState config (Some s) w in
  ∃ loaded,
    loadQuizState courses config w1 = (w1, Some loaded)
    ∧ as_SavedQuizState loaded = Some (reloaded courses config s).
Proof.
  intros Hwin Hkey (Hlen & Hok) w1.
  destruct (getQuizStateKey (Some config)) as [key|] eqn:Ekey; [|done].
  destruct (save_load_under_config courses config s w key Hwin Ekey Hlen Hok)
    as (loaded & Hload & Htyped).
  exists loaded. split; [exact Hload|]. by rewrite Htyped.
Qed.

Lemma save_load_roundtrip_witness :
  let w1 := saveQuizState demo_config (Some foreign_saved) empty_world in
  ∃ loaded,
    loadQuizState demo_courses demo_config w1 = (w1, Some loaded)
    ∧ as_SavedQuizState loaded
      = Some {| currentIndex := 1;
                userAnswers := [AStr "A"; ASet ["B"; "A"]];
                startTime := Some 1000;
                questionIds := [IdNum 1; IdNum 2];
                courseId := "demo";
                topicId := Some "t1";
                checkedAnswers := Some [false; true] |}.
Proof.
  apply (save_load_roundtrip demo_courses demo_config foreign_saved
           empty_world).
  - reflexivity.
  - discriminate.
  - split; [reflexivity|repeat constructor].
Defined.

(** C2, as first stated: the loaded state would equal the saved one but
    for its answers and [checkedAnswers].  [foreign_saved] names the course
    [other]; saved and loaded under [demo_config], it comes back naming
    the course [demo]. *)
Lemma save_load_course_overwritten :
  ¬ (∀ courses config s w,
       window_defined w = true →
       getQuizStateKey (Some config) ≠ None →
       well_formed s →
       ∃ loaded,
         loadQuizState courses config (saveQuizState config (Some s) w)
         = (saveQuizState config (Some s) w, Some loaded)
         ∧ as_SavedQuizState loaded = Some (roundtrip courses config s)).
Proof.
  intros Hclaim.
  destruct (Hclaim demo_courses demo_config foreign_saved empty_world)
    as (loaded & Hload & Htyped).
  - reflexivity.
  - discriminate.
  - split; [reflexivity|repeat constructor].
  - destruct (save_load_under_config demo_courses demo_config foreign_saved
                empty_world "quizState_demo_t1" eq_refl eq_refl eq_refl)
      as (loaded' & Hload' & Htyped'); [repeat constructor|].
    cbv zeta in Hload'. rewrite Hload in Hload'. injection Hload' as <-.
    rewrite Htyped in Htyped'. injection Htyped' as Hcourse _.
    discriminate Hcourse.
Qed.

End RoundTripFacts.

(** ** Sorting by a numeric key *)

Section SortFacts.

Context {A : Type} (key : A → Z).

Let byKey (a b : A) : comparison := (key a - key b ?= 0)%Z.
Let le_key (a b : A) : Prop := (key a ≤ key b)%Z.

Lemma byKey_Gt (a b : A) : byKey a b = Gt ↔ (key b < key a)%Z.
Proof. unfold byKey. rewrite Z.compare_gt_iff. lia. Qed.

Lemma insert_cons_le (x y : A) (l : list A) :
  (key x ≤ key y)%Z → insert_sorted byKey x (y :: l) = x :: y :: l.
Proof.
  intros Hle. cbn [insert_sorted]. destruct (byKey x y) eqn:E; try done.
  apply byKey_Gt in E. lia.
Qed.

Lemma insert_cons_gt (x y : A) (l : list A) :
  (key y < key x)%Z → insert_sorted byKey x (y :: l) = y :: insert_sorted byKey x l.
Proof.
  intros Hlt. cbn [insert_sorted]. apply byKey_Gt in Hlt. by rewrite Hlt.
Qed.

Lemma insert_Permutation (x : A) (l : list A) : insert_sorted byKey x l ≡ₚ x :: l.
Proof.
  induction l as [|y l IH]; [done|].
  destruct (Z_lt_le_dec (key y) (key x)) as [Hlt|Hle].
  - rewrite insert_cons_gt by done. rewrite IH. apply Permutation_swap.
  - by rewrite insert_cons_le.
Qed.

Lemma Array_sort_Permutation (l : list A) : Array_sort byKey l ≡ₚ l.
Proof.
  induction l as [|x l IH]; [done|].
  cbn [Array_sort]. by rewrite insert_Permutation, IH.
Qed.

Lemma length_insert_sorted (x : A) (l : list A) :
  length (insert_sorted byKey x l) = S (length l).
Proof. by rewrite insert_Permutation. Qed.


Lemma insert_StronglySorted (x : A) (l : list A) :
  StronglySorted le_key l → StronglySorted le_key (insert_sorted byKey x l).
Proof.
  induction 1 as [|y l Hsorted IH Hall]; [repeat constructor|].
  destruct (Z_lt_le_dec (key y) (key x)) as [Hlt|Hle].
  - rewrite insert_cons_gt by done. constructor; [done|].
    rewrite insert_Permutation. constructor; [unfold le_key; lia|done].
  - rewrite insert_cons_le by done. constructor; [by constructor|].
    constructor; [done|].
    eapply Forall_impl; [exact Hall|]. intros z Hz. unfold le_key in *. lia.
Qed.

Lemma Array_sort_StronglySorted (l : list A) :
  StronglySorted le_key (Array_sort byKey l).
Proof.
  induction l as [|x l IH]; [constructor|].
  cbn [Array_sort]. by apply insert_StronglySorted.
Qed.

Lemma insert_head (x : A) (l : list A) :
  Forall (le_key x) l → insert_sorted byKey x l = x :: l.
Proof.
  destruct 1 as [|y l Hle _]; [done|]. by apply insert_cons_le.
Qed.

Lemma Array_sort_sorted_id (l : list A) :
  StronglySorted le_key l → Array_sort byKey l = l.
Proof.
  induction 1 as [|y l Hsorted IH Hall]; [done|].
  cbn [Array_sort]. rewrite IH. by apply insert_head.
Qed.

Lemma insert_comm (a x : A) (l : list A) :
  key a ≠ key x →
  insert_sorted byKey a (insert_sorted byKey x l) = insert_sorted byKey x (insert_sorted byKey a l).
Proof.
  intros Hne.
  assert (Hstep : ∀ u v t,
            insert_sorted byKey u (v :: t)
            = if Z_lt_le_dec (key v) (key u)
              then v :: insert_sorted byKey u t else u :: v :: t).
  { intros u v t. destruct (Z_lt_le_dec (key v) (key u)).
    - by apply insert_cons_gt.
    - by apply insert_cons_le. }
  induction l as [|y l IH].
  - change (insert_sorted byKey x []) with [x].
    change (insert_sorted byKey a []) with [a].
    rewrite !Hstep. repeat case_match; (done || lia).
  - rewrite (Hstep x y), (Hstep a y).
    destruct (Z_lt_le_dec (key y) (key x)), (Z_lt_le_dec (key y) (key a));
      rewrite !Hstep; repeat case_match; try lia; try done.
    by rewrite IH.
Qed.

Lemma Array_sort_snoc (l : list A) (x : A) :
  Forall (λ y, key y ≠ key x) l →
  Array_sort byKey (l ++ [x]) = insert_sorted byKey x (Array_sort byKey l).
Proof.
  induction 1 as [|a l Ha Hall IH]; [done|].
  cbn [app Array_sort]. rewrite IH. by apply insert_comm.
Qed.

Lemma slice_last_short (k : nat) (l : list A) :
  (length l ≤ k)%nat → slice_last k l = l.
Proof.
  intros Hle. unfold slice_last.
  by replace (length l - k)%nat with 0%nat by lia.
Qed.

Lemma slice_last_cons (k : nat) (y : A) (l : list A) :
  (k ≤ length l)%nat → slice_last k (y :: l) = slice_last k l.
Proof.
  intros Hle. unfold slice_last. cbn [length].
  by replace (S (length l) - k)%nat with (S (length l - k)) by lia.
Qed.

Lemma length_slice_last (k : nat) (l : list A) :
  length (slice_last k l) = (length l `min` k)%nat.
Proof. unfold slice_last. rewrite length_drop. lia. Qed.

Lemma slice_last_StronglySorted (k : nat) (l : list A) :
  StronglySorted le_key l → StronglySorted le_key (slice_last k l).
Proof.
  unfold slice_last. generalize (length l - k)%nat as n. intros n Hsorted.
  revert n. induction Hsorted as [|y l Hsorted IH Hall]; intros [|n];
    cbn [drop]; [constructor|constructor|by constructor|apply IH].
Qed.


End SortFacts.

(** ** Completed-attempt history *)

Section HistoryFacts.

Import History.

Lemma filter_all {A} (P : A → Prop) `{∀ x, Decision (P x)} (l : list A) :
  Forall P l → filter P l = l.
Proof.
  induction 1 as [|x l Hx Hall IH]; [done|].
  rewrite filter_cons, decide_True by done. by rewrite IH.
Qed.

Lemma resultToAdd_numeric (now : Z) (r : QuizResults) :
  is_Some (timestamp r) → resultToAdd now r = r.
Proof. intros [t Ht]. destruct r. simpl in Ht. subst. reflexivity. Qed.

Lemma handleAddResult_unfold (now : Z) (r : QuizResults)
    (history : list QuizResults) :
  handleAddResult now r history
  = slice_last 50
      (Array_sort byTimestamp
         (filter (λ e, timestamp e ≠ timestamp (resultToAdd now r)) history
          ++ [resultToAdd now r])).
Proof. reflexivity. Qed.







(** The fifty kept of [batch55] are the results stamped 1005 to 1029 and
    2000 to 2024, in that order. *)
Example appendAll_batch55 :
  timestamp <$> appendAll 9999 batch55 []
  = ((λ i, Some (1005 + Z.of_nat i)%Z) <$> seq 0 25)
    ++ ((λ i, Some (2000 + Z.of_nat i)%Z) <$> seq 0 25).
Proof. vm_compute. reflexivity. Qed.

End HistoryFacts.

(** ** Shuffling the questions of a new quiz *)

Section ShuffleFacts.

Import Shuffle Quiz.

Context {A : Type}.

Lemma insert_swap_Permutation (l : list A) :
  ∀ j b x, l !! j = Some b → b :: <[j := x]> l ≡ₚ x :: l.
Proof.
  induction l as [|y l IH]; intros [|j] b x Hj; try done; cbn in Hj |- *.
  - injection Hj as ->. apply Permutation_swap.
  - etrans; [apply Permutation_swap|].
    rewrite (IH j b x Hj). apply Permutation_swap.
Qed.

Lemma swap_Permutation (i j : nat) (l : list A) : swap i j l ≡ₚ l.
Proof.
  unfold swap.
  destruct (l !! i) as [a|] eqn:Hi; [|done].
  destruct (l !! j) as [b|] eqn:Hj; [|done].
  revert i j Hi Hj. induction l as [|y l IH]; intros [|i] [|j] Hi Hj;
    try done; cbn in Hi, Hj |- *.
  - injection Hi as ->. by injection Hj as ->.
  - injection Hi as ->. by apply insert_swap_Permutation.
  - injection Hj as ->. by apply insert_swap_Permutation.
  - by rewrite (IH i j Hi Hj).
Qed.

Lemma length_swap (i j : nat) (l : list A) : length (swap i j l) = length l.
Proof. by rewrite swap_Permutation. Qed.

(** [shuffleArray] returns a permutation of its argument, whatever the
    random source returns. *)
Lemma shuffle_loop_Permutation (rng : Rng) (currentIndex : nat) :
  ∀ (result : list A) (calls : nat),
    (shuffle_loop rng currentIndex result calls).1 ≡ₚ result.
Proof.
  induction currentIndex as [|next IH]; intros result calls; [done|].
  cbn [shuffle_loop]. unfold bind, Math_random.
  rewrite IH. apply swap_Permutation.
Qed.

Lemma shuffleArray_Permutation (rng : Rng) (array : list A) (calls : nat) :
  (shuffleArray rng array calls).1 ≡ₚ array.
Proof. apply shuffle_loop_Permutation. Qed.

(** Each pass of [shuffleArray] draws an index below [currentIndex]. *)
Lemma randomIndex_in_range (r : Q) (currentIndex : nat) :
  (0 <= r)%Q → (r < 1)%Q → (0 < currentIndex)%nat →
  (Z.to_nat (Qfloor (r * inject_Z (Z.of_nat currentIndex))) < currentIndex)%nat.
Proof.
  intros Hlo Hhi Hpos.
  assert (0 <= inject_Z (Z.of_nat currentIndex))%Q as Hn.
  { change 0%Q with (inject_Z 0). rewrite <- Zle_Qle. lia. }
  assert (0 ≤ Qfloor (r * inject_Z (Z.of_nat currentIndex)))%Z as Hfloor0.
  { change 0%Z with (Qfloor (inject_Z 0)) at 1. apply Qfloor_resp_le.
    change (inject_Z 0) with 0%Q. by apply Qmult_le_0_compat. }
  assert (Qfloor (r * inject_Z (Z.of_nat currentIndex))
            < Z.of_nat currentIndex)%Z as Hfloor1.
  { rewrite Zlt_Qlt.
    apply Qle_lt_trans with (r * inject_Z (Z.of_nat currentIndex))%Q;
      [apply Qfloor_le|].
    rewrite <- (Qmult_1_l (inject_Z (Z.of_nat currentIndex))) at 2.
    apply Qmult_lt_compat_r; [|done].
    change 0%Q with (inject_Z 0). rewrite <- Zlt_Qlt. lia. }
  lia.
Qed.

(** The host sort driven by any drawing comparator returns a permutation
    of its argument. *)
Lemma insert_sorted_random_Permutation (comparefn : A → A → Random comparison)
    (x : A) (sorted : list A) :
  ∀ calls, (insert_sorted_random comparefn x sorted calls).1 ≡ₚ x :: sorted.
Proof.
  induction sorted as [|y sorted IH]; intros calls; [done|].
  cbn [insert_sorted_random]. unfold bind.
  destruct (comparefn x y calls) as [order calls'].
  destruct order; try done.
  specialize (IH calls').
  destruct (insert_sorted_random comparefn x sorted calls') as [rest calls''].
  cbn in *. rewrite IH. apply Permutation_swap.
Qed.

Lemma Array_sort_random_Permutation (comparefn : A → A → Random comparison)
    (items : list A) :
  ∀ calls, (Array_sort_random comparefn items calls).1 ≡ₚ items.
Proof.
  induction items as [|x items IH]; intros calls; [done|].
  cbn [Array_sort_random]. unfold bind.
  specialize (IH calls).
  destruct (Array_sort_random comparefn items calls) as [sorted calls'].
  cbn in IH. by rewrite insert_sorted_random_Permutation, IH.
Qed.

(** The outcome of the host sort depends on the random source through the
    values it returns only. *)
Lemma insert_sorted_random_ext (rng1 rng2 : Rng) (x : A) (sorted : list A) :
  (∀ n, rng1 n = rng2 n) →
  ∀ calls,
    insert_sorted_random (randomComparator rng1) x sorted calls
    = insert_sorted_random (randomComparator rng2) x sorted calls.
Proof.
  intros Hsame. induction sorted as [|y sorted IH]; intros calls; [done|].
  cbn [insert_sorted_random]. unfold bind, randomComparator, Math_random, bind, ret.
  rewrite Hsame. destruct (sign _); try done. by rewrite IH.
Qed.

Lemma Array_sort_random_ext (rng1 rng2 : Rng) (items : list A) :
  (∀ n, rng1 n = rng2 n) →
  ∀ calls,
    Array_sort_random (randomComparator rng1) items calls
    = Array_sort_random (randomComparator rng2) items calls.
Proof.
  intros Hsame. induction items as [|x items IH]; intros calls; [done|].
  cbn [Array_sort_random]. unfold bind. rewrite IH.
  destruct (Array_sort_random _ items calls) as [sorted calls'].
  by apply insert_sorted_random_ext.
Qed.

End ShuffleFacts.

Section InitializeFacts.

Import Shuffle Quiz.

(** The questions of a new session are a permutation of the catalog's
    questions for the course and topic; the answers, statuses and checked
    flags are blank and of the same length. *)
Lemma initialize_Permutation (courses : list Course) (courseId : string)
    (topicId : option string) (rng : Rng) (now : Z) :
  let st := initialize courses courseId topicId rng now in
  currentQuestions st ≡ₚ getQuizItems courses courseId topicId
  ∧ userAnswers st = replicate (length (currentQuestions st)) ANull
  ∧ checkedAnswers st = replicate (length (currentQuestions st)) false
  ∧ currentQuestionIndex st = 0%Z.
Proof.
  cbn. split; [|done]. apply Array_sort_random_Permutation.
Qed.

(** With the same values drawn, the new session is the same. *)
Lemma initialize_deterministic (courses : list Course) (courseId : string)
    (topicId : option string) (rng1 rng2 : Rng) (now : Z) :
  (∀ n, rng1 n = rng2 n) →
  initialize courses courseId topicId rng1 now
  = initialize courses courseId topicId rng2 now.
Proof.
  intros Hsame. unfold initialize, shuffledQuestionsOf.
  by rewrite (Array_sort_random_ext rng1 rng2 _ Hsame).
Qed.

Lemma length_coinDraws (k : nat) : length (coinDraws k) = (2 ^ k)%nat.
Proof.
  induction k as [|k IH]; [done|].
  cbn [coinDraws]. rewrite length_app, !length_fmap, IH. cbn [Nat.pow]. lia.
Qed.

Lemma pow2_not_multiple_of_3 (k : nat) : ∀ c, (2 ^ k)%nat ≠ (3 * c)%nat.
Proof.
  induction k as [|k IH]; intros c Heq; [cbn in Heq; lia|].
  cbn [Nat.pow] in Heq. apply (IH (2 ^ k - c)%nat). lia.
Qed.

(** Whatever procedure turns [k] comparator outcomes into an order, no
    event has probability one sixth: the outcome sequences that produce it
    are never a sixth of all the equally likely sequences. *)
Lemma coin_driven_never_one_sixth {B} (procedure : list Q → B) (k : nat)
    (event : B → bool) :
  (6 * length (filter (λ draws, event (procedure draws) = true) (coinDraws k))
   ≠ length (coinDraws k))%nat.
Proof.
  rewrite length_coinDraws. intros Heq.
  apply (pow2_not_multiple_of_3 k
    (2 * length (filter (λ draws, event (procedure draws) = true)
                        (coinDraws k)))%nat).
  lia.
Qed.

(** With nothing stored for the quiz, the load effect initialises a new
    session. *)
Lemma loadEffect_initializes (courses : list Course) (config : QuizConfig)
    (rng : Rng) (now : Z) (prev : Session) (w : World) (key : string) :
  getQuizStateKey (Some config) = Some key →
  localStorage w !! key = None →
  loadEffect courses config rng now prev w
  = (w, Some (initialize courses (Identity.courseId config)
                (Identity.topicId config) rng now)).
Proof.
  intros Hkey Habsent. unfold loadEffect.
  by rewrite Hkey, (loadQuizState_absent courses config w key Hkey Habsent).
Qed.

(** C4, at the failing input.  For the three questions of the demo course
    the initialise branch, which sorts with [() => 0.5 - Math.random()],
    yields over its eight equally likely comparator outcomes the order
    [1, q3, 2] twice and the order [1, 2, q3] twice, and each other order
    once: probabilities 1/4 and 1/8, not 1/6.  The Fisher-Yates utility
    [shuffleArray] yields over its six equally likely index draws each of
    the six orders once. *)
Theorem initialize_sort_shuffle_biased :
  sortOutcomes three_questions
  = [ [IdStr "q3"; IdNum 2; IdNum 1]; [IdStr "q3"; IdNum 1; IdNum 2];
      [IdNum 1; IdStr "q3"; IdNum 2]; [IdNum 1; IdStr "q3"; IdNum 2];
      [IdNum 2; IdStr "q3"; IdNum 1]; [IdNum 2; IdNum 1; IdStr "q3"];
      [IdNum 1; IdNum 2; IdStr "q3"]; [IdNum 1; IdNum 2; IdStr "q3"] ]
  ∧ fisherYatesOutcomes three_questions
    = [ [IdNum 2; IdStr "q3"; IdNum 1]; [IdStr "q3"; IdNum 2; IdNum 1];
        [IdStr "q3"; IdNum 1; IdNum 2]; [IdNum 1; IdStr "q3"; IdNum 2];
        [IdNum 2; IdNum 1; IdStr "q3"]; [IdNum 1; IdNum 2; IdStr "q3"] ].
Proof. split; vm_compute; reflexivity. Qed.

End InitializeFacts.

(** * Further properties of the state manager *)

Section IdentityInjectivity.

Lemma append_inj_l (p a b : string) : p +:+ a = p +:+ b → a = b.
Proof.
  induction p as [|c p IH]; [done|]. cbn. intros [= H]. by apply IH.
Qed.

Lemma prefix_append (p rest : string) : String.prefix p (p +:+ rest) = true.
Proof.
  induction p as [|c p IH]; [by destruct rest|].
  change (String c p +:+ rest) with (String c (p +:+ rest)).
  cbn [String.prefix]. by destruct (ascii_dec c c).
Qed.

(** Every identity lies in the quiz-state namespace. *)
Lemma getQuizStateKey_prefix (config : option QuizConfig) (key : string) :
  getQuizStateKey config = Some key →
  String.prefix QUIZ_STATE_PREFIX key = true.
Proof.
  destruct config as [c|]; [|done]. cbn.
  destruct (String.eqb (Identity.courseId c) ""); [done|].
  intros [= <-]. apply prefix_append.
Qed.

Lemma sanitize_key_class (s : string) :
  forallb in_key_class (list_ascii_of_string s) = true → sanitize s = s.
Proof.
  induction s as [|c s IH]; [done|]. cbn.
  intros [Hc Hs]%andb_true_iff. by rewrite Hc, IH.
Qed.

(** Two quizzes of one course share an identity exactly when their topic
    parts (the topic, or [full] for the whole course) sanitise to the same
    text; topic parts written in key characters only are told apart. *)
Theorem getQuizStateKey_same_course (c1 c2 : QuizConfig) :
  Identity.courseId c1 ≠ "" →
  Identity.courseId c2 = Identity.courseId c1 →
  (getQuizStateKey (Some c1) = getQuizStateKey (Some c2)
     ↔ sanitize (topicPart c1) = sanitize (topicPart c2))
  ∧ (forallb in_key_class (list_ascii_of_string (topicPart c1)) = true →
     forallb in_key_class (list_ascii_of_string (topicPart c2)) = true →
     (getQuizStateKey (Some c1) = getQuizStateKey (Some c2)
        ↔ topicPart c1 = topicPart c2)).
Proof.
  intros Hne Hsame.
  assert (getQuizStateKey (Some c1) = getQuizStateKey (Some c2)
          ↔ sanitize (topicPart c1) = sanitize (topicPart c2)) as Hiff.
  { unfold getQuizStateKey, topicPart. rewrite Hsame.
    apply String_eqb_false in Hne. rewrite Hne. cbv zeta. split.
    - intros [= H]. by do 3 apply append_inj_l in H.
    - by intros ->. }
  split; [exact Hiff|]. intros H1 H2.
  by rewrite Hiff, (sanitize_key_class _ H1), (sanitize_key_class _ H2).
Qed.

Lemma getQuizStateKey_same_course_witness :
  getQuizStateKey
    (Some {| Identity.courseId := "demo"; Identity.topicId := Some "a b";
             Identity.type := topic_quiz |})
  = getQuizStateKey
      (Some {| Identity.courseId := "demo"; Identity.topicId := Some "a_b";
               Identity.type := topic_quiz |})
  ∧ getQuizStateKey
      (Some {| Identity.courseId := "demo"; Identity.topicId := Some "full";
               Identity.type := topic_quiz |})
    = getQuizStateKey
        (Some {| Identity.courseId := "demo"; Identity.topicId := None;
                 Identity.type := full |})
  ∧ getQuizStateKey demo_config_opt ≠ getQuizStateKey demo_config_t2.
Proof.
  split; [|split].
  - exact (proj2 (proj1 (getQuizStateKey_same_course
             {| Identity.courseId := "demo"; Identity.topicId := Some "a b";
                Identity.type := topic_quiz |}
             {| Identity.courseId := "demo"; Identity.topicId := Some "a_b";
                Identity.type := topic_quiz |}
             ltac:(discriminate) eq_refl)) eq_refl).
  - exact (proj2 (proj1 (getQuizStateKey_same_course
             {| Identity.courseId := "demo"; Identity.topicId := Some "full";
                Identity.type := topic_quiz |}
             {| Identity.courseId := "demo"; Identity.topicId := None;
                Identity.type := full |}
             ltac:(discriminate) eq_refl)) eq_refl).
  - intros Heq.
    apply (proj1 (proj2 (getQuizStateKey_same_course demo_config
                    {| Identity.courseId := "demo";
                       Identity.topicId := Some "t2";
                       Identity.type := topic_quiz |}
                    ltac:(discriminate) eq_refl) eq_refl eq_refl)) in Heq.
    discriminate Heq.
Defined.

End IdentityInjectivity.

Section ManagerFacts.

(** What [loadQuizState] reports depends on the store through the text
    under the quiz's own key only. *)
Lemma loadQuizState_result_local (courses : list Course) (config : QuizConfig)
    (w1 w2 : World) (key : string) :
  getQuizStateKey (Some config) = Some key →
  window_defined w1 = window_defined w2 →
  localStorage w1 !! key = localStorage w2 !! key →
  (loadQuizState courses config w1).2 = (loadQuizState courses config w2).2.
Proof.
  intros Hkey Hwin Hsame. unfold loadQuizState. rewrite Hkey, Hwin, Hsame.
  destruct (window_defined w2); [|done]. cbn [negb].
  destruct (localStorage w2 !! key) as [stored|]; [|done].
  by destruct (parseAndValidate courses config key stored).
Qed.

(** Saving or clearing the state of one quiz leaves every quiz with
    another identity as it was: its stored text is untouched and
    [loadQuizState] reports the same. *)
Theorem saveQuizState_other_identity (courses : list Course)
    (saved other : QuizConfig) (state : option SavedQuizState) (w : World)
    (key : string) :
  getQuizStateKey (Some other) = Some key →
  getQuizStateKey (Some saved) ≠ Some key →
  localStorage (saveQuizState saved state w) !! key = localStorage w !! key
  ∧ inProgressQuizzes (saveQuizState saved state w) !! key
    = inProgressQuizzes w !! key
  ∧ (loadQuizState courses other (saveQuizState saved state w)).2
    = (loadQuizState courses other w).2.
Proof.
  intros Hother Hne.
  assert (window_defined (saveQuizState saved state w) = window_defined w
          ∧ localStorage (saveQuizState saved state w) !! key
            = localStorage w !! key
          ∧ inProgressQuizzes (saveQuizState saved state w) !! key
            = inProgressQuizzes w !! key) as (Hwin & Hstore & Hindex).
  { unfold saveQuizState.
    destruct (getQuizStateKey (Some saved)) as [k|] eqn:Hk; [|done].
    assert (k ≠ key) by congruence.
    destruct (window_defined w) eqn:Hw; [|done]. cbn [negb].
    destruct state as [s|]; cbn.
    - by rewrite !lookup_insert_ne.
    - by rewrite !lookup_delete_ne. }
  split; [done|]. split; [done|].
  by apply (loadQuizState_result_local courses other _ w key).
Qed.

Lemma saveQuizState_other_identity_witness :
  let w := saveQuizState demo_config (Some demo_saved) empty_world in
  let full_config :=
    {| Identity.courseId := "demo"; Identity.topicId := None;
       Identity.type := full |} in
  (loadQuizState demo_courses demo_config
     (saveQuizState full_config (Some checked_saved) w)).2
  = (loadQuizState demo_courses demo_config w).2
  ∧ (loadQuizState demo_courses demo_config
       (saveQuizState full_config None w)).2
    = (loadQuizState demo_courses demo_config w).2.
Proof.
  split.
  - exact (proj2 (proj2 (saveQuizState_other_identity demo_courses
             {| Identity.courseId := "demo"; Identity.topicId := None;
                Identity.type := full |}
             demo_config (Some checked_saved)
             (saveQuizState demo_config (Some demo_saved) empty_world)
             "quizState_demo_t1" eq_refl ltac:(discriminate)))).
  - exact (proj2 (proj2 (saveQuizState_other_identity demo_courses
             {| Identity.courseId := "demo"; Identity.topicId := None;
                Identity.type := full |}
             demo_config None
             (saveQuizState demo_config (Some demo_saved) empty_world)
             "quizState_demo_t1" eq_refl ltac:(discriminate)))).
Defined.

Lemma length_prop_fresh (n : nat) :
  length_prop (JArr (replicate n (JBool false))) = Some (Z.of_nat n).
Proof. cbn. by rewrite length_replicate. Qed.

(** A stored value that passes the structural check is returned, and the
    load changes nothing, unless looking up one of its question ids
    throws: [String] throws on an object with an own [toString] property,
    and the [catch] then removes the key and the load returns null.  The
    returned state has one answer per question id; its [checkedAnswers] has
    the length of the id list and is either the stored value (which is not
    checked to be an array of booleans) or an array of [false]; and an
    answer is a set only where the stored answer is an array. *)
Theorem loadQuizState_returns_valid (courses : list Course)
    (config : QuizConfig) (w : World) (key : string) (parsed : json)
    (answers ids : list json) :
  window_defined w = true →
  getQuizStateKey (Some config) = Some key →
  localStorage w !! key = Some (Stringified parsed) →
  prop parsed "userAnswers" = Some (JArr answers) →
  prop parsed "questionIds" = Some (JArr ids) →
  is_number (prop parsed "currentIndex") = true →
  length ids = length answers →
  (existsb (getQuestionById_throws courses (Some (Identity.courseId config)))
           ids = false →
   ∃ loaded,
     loadQuizState courses config w = (w, Some loaded)
     ∧ parsed = JObj (loaded_parsed loaded)
     ∧ length (loaded_userAnswers loaded) = length ids
     ∧ length_prop (loaded_checkedAnswers loaded)
       = Some (Z.of_nat (length ids))
     ∧ (prop parsed "checkedAnswers" = Some (loaded_checkedAnswers loaded)
        ∨ loaded_checkedAnswers loaded
          = JArr (replicate (length ids) (JBool false)))
     ∧ (∀ i members,
          loaded_userAnswers loaded !! i = Some (LSet members) →
          ∃ items, answers !! i = Some (JArr items)))
  ∧ (existsb (getQuestionById_throws courses (Some (Identity.courseId config)))
             ids = true →
     loadQuizState courses config w = (removeItem key w, None)).
Proof.
  intros Hwin Hkey Hstored Hans Hids Hnum Hlen.
  destruct (prop_is_object _ _ _ Hans) as [props ->].
  unfold loadQuizState. rewrite Hkey, Hwin, Hstored. cbn [negb].
  unfold parseAndValidate. cbn [JSON_parse truthy andb].
  rewrite Hnum, Hans, Hids. cbn [as_array].
  apply Nat.eqb_eq in Hlen as Hlenb. rewrite Hlenb.
  split; intros ->; [|done].
  eexists. split; [reflexivity|]. cbn.
  split; [done|]. split; [by rewrite length_imap|]. split; [|split].
  - destruct (assoc "checkedAnswers" props) as [c|];
      [|apply length_prop_fresh].
    destruct (truthy c); [|apply length_prop_fresh]. cbn [andb].
    case_bool_decide; [done|apply length_prop_fresh].
  - destruct (assoc "checkedAnswers" props) as [c|]; [|by right].
    destruct (truthy c && _); [by left|by right].
  - intros i members. rewrite list_lookup_imap.
    destruct (answers !! i) as [ans|] eqn:Hi; [|done]. cbn.
    unfold restoreStoredAnswer. destruct (ids !! i); [|done].
    destruct ans; try done. by eexists.
Qed.

Lemma loadQuizState_returns_valid_witness :
  (∃ loaded,
     loadQuizState demo_courses demo_config negative_world
       = (negative_world, Some loaded)
     ∧ length (loaded_userAnswers loaded) = 2%nat
     ∧ length_prop (loaded_checkedAnswers loaded) = Some 2%Z)
  ∧ loadQuizState demo_courses demo_config opaque_id_world
    = (removeItem "quizState_demo_t1" opaque_id_world, None).
Proof.
  split.
  - destruct (proj1 (loadQuizState_returns_valid demo_courses demo_config
                       negative_world "quizState_demo_t1" _
                       [JStr "A"; JNull] [JNum 1; JNum 2]
                       eq_refl eq_refl eq_refl eq_refl eq_refl eq_refl
                       eq_refl) eq_refl)
      as (loaded & Hload & _ & Hlen & Hchecked & _).
    by exists loaded.
  - exact (proj2 (loadQuizState_returns_valid demo_courses demo_config
                    opaque_id_world "quizState_demo_t1" _
                    [JStr "A"] [JObj [("toString", JNum 1)]]
                    eq_refl eq_refl eq_refl eq_refl eq_refl eq_refl
                    eq_refl) eq_refl).
Defined.

End ManagerFacts.

Section BulkFacts.

Import Index.

(** One key: the text under the key goes if it is corrupt, the map gains
    the parsed value if it is kept, and nothing else changes. *)
Lemma loadKey_lookup (key : string) (storage : gmap string text)
    (loaded : gmap string json) (k : string) :
  (loadKey key (storage, loaded)).1 !! k
  = (if decide (k = key)
     then storage !! k ≫= λ t, if corruptEntry t then None else Some t
     else storage !! k)
  ∧ (loadKey key (storage, loaded)).2 !! k
    = (if decide (k = key)
       then match storage !! k ≫= keptEntry with
            | Some parsed => Some parsed
            | None => loaded !! k
            end
       else loaded !! k).
Proof.
  unfold loadKey, corruptEntry, keptEntry.
  destruct (decide (k = key)) as [->|Hne].
  - destruct (storage !! key) as [t|] eqn:Ht; cbn; [|by rewrite Ht].
    destruct (text_truthy t); cbn; [|by rewrite Ht].
    destruct (JSON_parse t) as [parsed|]; cbn.
    + destruct (validEntry parsed); cbn.
      * by rewrite Ht, lookup_insert_eq.
      * by rewrite lookup_delete_eq.
    + by rewrite lookup_delete_eq.
  - destruct (storage !! key) as [t|]; [|done].
    destruct (text_truthy t); [|done].
    destruct (JSON_parse t) as [parsed|]; [destruct (validEntry parsed)|];
      cbn; by rewrite ?lookup_insert_ne, ?lookup_delete_ne.
Qed.

Lemma corrupt_not_kept (t : text) :
  corruptEntry t = true → keptEntry t = None.
Proof.
  unfold corruptEntry, keptEntry. destruct (text_truthy t); [|done].
  destruct (JSON_parse t) as [parsed|]; [|done].
  by destruct (validEntry parsed).
Qed.

Lemma foldl_loadKey_lookup (keys : list string) :
  ∀ (storage : gmap string text) (loaded : gmap string json) (k : string),
    (foldl (λ acc key, loadKey key acc) (storage, loaded) keys).1 !! k
    = (if decide (k ∈ keys)
       then storage !! k ≫= λ t, if corruptEntry t then None else Some t
       else storage !! k)
    ∧ (foldl (λ acc key, loadKey key acc) (storage, loaded) keys).2 !! k
      = (if decide (k ∈ keys)
         then match storage !! k ≫= keptEntry with
              | Some parsed => Some parsed
              | None => loaded !! k
              end
         else loaded !! k).
Proof.
  induction keys as [|key keys IH]; intros storage loaded k; [done|].
  cbn [foldl].
  destruct (loadKey key (storage, loaded)) as [storage1 loaded1] eqn:Hstep.
  destruct (IH storage1 loaded1 k) as [-> ->].
  destruct (loadKey_lookup key storage loaded k) as [H1 H2].
  rewrite Hstep in H1, H2. cbn in H1, H2. rewrite H1, H2. clear.
  pose proof (elem_of_cons keys k key) as Hcons.
  destruct (decide (k ∈ key :: keys)), (decide (k = key)), (decide (k ∈ keys));
    try (exfalso; tauto); try done;
    (destruct (storage !! k) as [t|]; cbn; [|done]);
    (destruct (corruptEntry t) eqn:Hc; cbn;
     [by rewrite ?(corrupt_not_kept t Hc)|]);
    rewrite ?Hc; by destruct (keptEntry t).
Qed.

(** What a pass over the catalog's keys leaves in storage and reports,
    key by key. *)
Lemma loadAllStatesFromStorage_lookup (courses : list Course) (w : World)
    (k : string) :
  window_defined w = true →
  let '(w', loadedStates) := loadAllStatesFromStorage courses w in
  localStorage w' !! k
  = (if decide (k ∈ managedKeys courses)
     then localStorage w !! k ≫= λ t, if corruptEntry t then None else Some t
     else localStorage w !! k)
  ∧ loadedStates !! k
    = (if decide (k ∈ managedKeys courses)
       then localStorage w !! k ≫= keptEntry
       else None)
  ∧ inProgressQuizzes w' = inProgressQuizzes w
  ∧ window_defined w' = true.
Proof.
  intros Hwin. unfold loadAllStatesFromStorage. rewrite Hwin. cbn [negb].
  destruct (foldl_loadKey_lookup (managedKeys courses) (localStorage w) ∅ k)
    as [H1 H2].
  destruct (foldl _ _ _) as [storage loaded]. cbn in *.
  rewrite H1, H2. repeat split.
  destruct (decide _); [|done].
  by destruct (localStorage w !! k ≫= keptEntry).
Qed.

(** A second pass finds nothing more to remove and reports the same
    map. *)
Theorem loadAllStatesFromStorage_idempotent (courses : list Course)
    (w : World) :
  window_defined w = true →
  let '(w', loadedStates) := loadAllStatesFromStorage courses w in
  loadAllStatesFromStorage courses w' = (w', loadedStates).
Proof.
  intros Hwin.
  pose proof (λ k, loadAllStatesFromStorage_lookup courses w k Hwin)
    as Hfirst.
  destruct (loadAllStatesFromStorage courses w) as [w' loaded].
  assert (window_defined w' = true) as Hwin'
    by (by destruct (Hfirst "") as (_ & _ & _ & ?)).
  pose proof (λ k, loadAllStatesFromStorage_lookup courses w' k Hwin')
    as Hsecond.
  destruct (loadAllStatesFromStorage courses w') as [w'' loaded'].
  assert (localStorage w'' = localStorage w') as Hstore.
  { apply map_eq. intros k.
    destruct (Hsecond k) as (-> & _). destruct (Hfirst k) as (-> & _).
    destruct (decide _); [|done].
    destruct (localStorage w !! k) as [t|]; [|done]. cbn.
    destruct (corruptEntry t) eqn:Hc; [done|]. cbn. by rewrite Hc. }
  assert (loaded' = loaded) as ->.
  { apply map_eq. intros k.
    destruct (Hsecond k) as (_ & -> & _).
    destruct (Hfirst k) as (-> & -> & _).
    destruct (decide _); [|done].
    destruct (localStorage w !! k) as [t|]; [|done]. cbn.
    destruct (corruptEntry t) eqn:Hc; [|done]. cbn.
    by rewrite (corrupt_not_kept t Hc). }
  f_equal. destruct w'', w'. cbn in *. subst.
  destruct (Hsecond "") as (_ & _ & -> & ->). done.
Qed.

Lemma loadAllStatesFromStorage_idempotent_witness :
  let '(w', loadedStates) :=
    loadAllStatesFromStorage demo_courses mismatched_world in
  loadAllStatesFromStorage demo_courses w' = (w', loadedStates).
Proof.
  exact (loadAllStatesFromStorage_idempotent demo_courses mismatched_world
           eq_refl).
Defined.

(** After [clearAllQuizStates] no quiz has a saved state, the results
    history is gone, the in-memory index is empty, and every key outside
    the quiz-state namespace other than the history's is as before. *)
Theorem clearAllQuizStates_clears (courses : list Course) (w : World) :
  window_defined w = true →
  let w' := clearAllQuizStates w in
  (∀ config, loadQuizState courses config w' = (w', None))
  ∧ localStorage w' !! "quizResults" = None
  ∧ inProgressQuizzes w' = ∅
  ∧ (∀ k, String.prefix QUIZ_STATE_PREFIX k = false → k ≠ "quizResults" →
          localStorage w' !! k = localStorage w !! k)
  ∧ loadAllStatesFromStorage courses w' = (w', ∅).
Proof.
  intros Hwin w'.
  assert (window_defined w' = true) as Hwin'
    by (unfold w', clearAllQuizStates; by rewrite Hwin).
  assert (∀ k, String.prefix QUIZ_STATE_PREFIX k = true →
               localStorage w' !! k = None) as Hgone.
  { intros k Hk. unfold w', clearAllQuizStates. rewrite Hwin. cbn.
    destruct (decide (k = "quizResults")) as [->|Hne]; [done|].
    rewrite lookup_delete_ne by done.
    apply map_lookup_filter_None. right. intros t _. cbn. congruence. }
  split; [|split; [|split; [|split]]].
  - intros config.
    destruct (getQuizStateKey (Some config)) as [key|] eqn:Hkey.
    + apply (loadQuizState_absent courses config w' key Hkey).
      apply Hgone. by apply (getQuizStateKey_prefix (Some config)).
    + unfold loadQuizState. by rewrite Hkey.
  - unfold w', clearAllQuizStates. rewrite Hwin. apply lookup_delete_eq.
  - unfold w', clearAllQuizStates. by rewrite Hwin.
  - intros k Hk Hne. unfold w', clearAllQuizStates. rewrite Hwin. cbn.
    rewrite lookup_delete_ne by done.
    destruct (localStorage w !! k) as [t|] eqn:Ht.
    + by apply map_lookup_filter_Some.
    + apply map_lookup_filter_None. by left.
  - pose proof (λ k, loadAllStatesFromStorage_lookup courses w' k Hwin')
      as Hall.
    destruct (loadAllStatesFromStorage courses w') as [w'' loaded].
    assert (∀ k, k ∈ managedKeys courses → localStorage w' !! k = None)
      as Hmanaged.
    { intros k Hk. apply Hgone. unfold managedKeys in Hk.
      apply list_elem_of_bind in Hk as (course & Hk & _).
      unfold courseKeys in Hk. apply elem_of_app in Hk as [Hk|Hk].
      - unfold fullKey in Hk. destruct (getQuizStateKey _) eqn:E; [|by inversion Hk].
        apply list_elem_of_singleton in Hk as ->.
        by eapply getQuizStateKey_prefix.
      - apply list_elem_of_omap in Hk as (topic & _ & Hk).
        unfold topicKey in Hk. destruct (String.eqb topic ""); [done|].
        by eapply getQuizStateKey_prefix. }
    f_equal.
    + destruct w'' as [win store index], w' as [win' store' index'] eqn:Ew.
      cbn in *. destruct (Hall "") as (_ & _ & -> & ->). f_equal; [done|].
      apply map_eq. intros k. destruct (Hall k) as (-> & _).
      destruct (decide _) as [Hin|]; [|done].
      by rewrite (Hmanaged k Hin).
    + apply map_eq. intros k. destruct (Hall k) as (_ & -> & _).
      rewrite lookup_empty. destruct (decide _) as [Hin|]; [|done].
      by rewrite (Hmanaged k Hin).
Qed.

Lemma clearAllQuizStates_clears_witness :
  let w := saveQuizState demo_config (Some demo_saved) empty_world in
  loadQuizState demo_courses demo_config (clearAllQuizStates w)
  = (clearAllQuizStates w, None)
  ∧ loadAllStatesFromStorage demo_courses (clearAllQuizStates w)
    = (clearAllQuizStates w, ∅).
Proof.
  destruct (clearAllQuizStates_clears demo_courses
              (saveQuizState demo_config (Some demo_saved) empty_world)
              eq_refl) as (Hload & _ & _ & _ & Hall).
  split; [apply Hload|exact Hall].
Defined.

(** [loadAllStatesFromStorage], key by key: a managed key whose text is
    corrupt is removed from the store, every other text stays; the map
    holds exactly the parsed values of the managed keys that pass the
    check; the in-memory index is not touched. *)
Theorem loadAllStatesFromStorage_pointwise (courses : list Course) (w : World)
    (k : string) :
  window_defined w = true →
  let '(w', loadedStates) := loadAllStatesFromStorage courses w in
  localStorage w' !! k
  = (if decide (k ∈ managedKeys courses)
     then localStorage w !! k ≫= λ t, if corruptEntry t then None else Some t
     else localStorage w !! k)
  ∧ loadedStates !! k
    = (if decide (k ∈ managedKeys courses)
       then localStorage w !! k ≫= keptEntry
       else None)
  ∧ inProgressQuizzes w' = inProgressQuizzes w
  ∧ window_defined w' = true.
Proof. apply loadAllStatesFromStorage_lookup. Qed.

Lemma loadAllStatesFromStorage_pointwise_witness :
  let '(w', loadedStates) :=
    loadAllStatesFromStorage demo_courses garbled_world in
  localStorage w' !! "quizState_demo_t1" = None
  ∧ loadedStates !! "quizState_demo_t1" = None.
Proof.
  pose proof (loadAllStatesFromStorage_pointwise demo_courses garbled_world
                "quizState_demo_t1" eq_refl) as H.
  destruct (loadAllStatesFromStorage demo_courses garbled_world) as [w' l].
  destruct H as (H1 & H2 & _). split; [exact H1|exact H2].
Defined.

End BulkFacts.

(** * The session as a state machine *)

Section SessionFacts.

Import Quiz QuestionView Handlers.

Local Arguments isMultiSelect : simpl never.

Lemma at_index_lookup {A} (l : list A) (z : Z) (x : A) :
  at_index l z = Some x ↔
  (0 ≤ z < Z.of_nat (length l))%Z ∧ l !! Z.to_nat z = Some x.
Proof.
  unfold at_index. destruct (z <? 0)%Z eqn:E.
  - apply Z.ltb_lt in E. split; [done|]. intros [? _]. lia.
  - apply Z.ltb_ge in E. split.
    + intros H. split; [|done]. apply lookup_lt_Some in H. lia.
    + by intros [_ H].
Qed.

Lemma at_index_in_range {A} (l : list A) (z : Z) :
  (0 ≤ z < Z.of_nat (length l))%Z →
  ∃ x, at_index l z = Some x ∧ l !! Z.to_nat z = Some x.
Proof.
  intros Hz. destruct (lookup_lt_is_Some_2 l (Z.to_nat z)) as [x Hx]; [lia|].
  exists x. split; [|done]. by apply at_index_lookup.
Qed.

Lemma Array_set_in_range {A} (l : list A) (z : Z) (x : A) :
  (0 ≤ z < Z.of_nat (length l))%Z →
  Array_set z x l = Some (<[Z.to_nat z := x]> l).
Proof.
  intros Hz. unfold Array_set.
  destruct (z <? 0)%Z eqn:E; [apply Z.ltb_lt in E; lia|].
  destruct (z <? Z.of_nat (length l))%Z eqn:E2; [done|].
  apply Z.ltb_ge in E2. lia.
Qed.

Lemma NoDup_Set_add (members : list string) (value : string) :
  NoDup members → NoDup (Set_add members value).
Proof.
  intros Hnd. unfold Set_add.
  destruct (Set_has members value) eqn:E; [done|].
  apply NoDup_app. split; [done|]. split; [|apply NoDup_singleton].
  intros x Hx Hin. apply list_elem_of_singleton in Hin as ->.
  apply Set_has_elem in Hx. congruence.
Qed.

Lemma NoDup_Set_delete (members : list string) (value : string) :
  NoDup members → NoDup (Set_delete members value).
Proof. intros Hnd. by apply NoDup_filter. Qed.

(** The value the question view passes on has the kind of the
    question. *)
Lemma handleOptionChange_kind (q : QuizItem) (current : option Answer)
    (value : string) (checked : bool) :
  (∀ a, current = Some a → answer_kind q a) →
  answer_kind q (answerOf (handleOptionChange q current value checked)).
Proof.
  intros Hkind. unfold handleOptionChange, answer_kind in *.
  destruct (isMultiSelect (correctAnswer q)); cbn; [|right; by eexists].
  right. eexists. split; [done|].
  assert (NoDup match current with
                | Some (ASet members) => members
                | _ => []
                end) as Hnd.
  { destruct current as [[| | |members]|]; try apply NoDup_nil_2.
    destruct (Hkind _ eq_refl) as [?|(m & [= <-] & ?)]; done. }
  destruct checked; [by apply NoDup_Set_add|by apply NoDup_Set_delete].
Qed.

Lemma confirmed_ext (st st' : Session) (j : nat) :
  currentQuestions st' = currentQuestions st →
  userAnswers st' !! j = userAnswers st !! j →
  checkedAnswers st' !! j = checkedAnswers st !! j →
  confirmed st j → confirmed st' j.
Proof.
  intros Hq Ha Hc (q & Hj & H). exists q. rewrite Hq, Ha, Hc. by split.
Qed.

Lemma answeredSingleAt_ext (st st' : Session) (z : Z) :
  currentQuestions st' = currentQuestions st →
  answerStatuses st' = answerStatuses st →
  answeredSingleAt st' z = answeredSingleAt st z.
Proof. intros Hq Hs. unfold answeredSingleAt. by rewrite Hq, Hs. Qed.

(** What the handlers return for the current question of a session that
    satisfies the invariants. *)
Lemma handleAnswer_current (st : Session) (q : QuizItem) (sel : Selected) :
  session_ok st →
  at_index (currentQuestions st) (currentQuestionIndex st) = Some q →
  let i := Z.to_nat (currentQuestionIndex st) in
  handleAnswer (currentQuestionIndex st) sel st
  = Some
      (if isMultiSelect (correctAnswer q) then
         {| currentQuestions := currentQuestions st;
            currentQuestionIndex := currentQuestionIndex st;
            userAnswers := <[i := answerOf sel]> (userAnswers st);
            startTime := startTime st;
            showFeedbackForSingleChoice := false;
            answerStatuses := <[i := None]> (answerStatuses st);
            checkedAnswers := <[i := false]> (checkedAnswers st);
            isLoaded := isLoaded st |}
       else
         {| currentQuestions := currentQuestions st;
            currentQuestionIndex := currentQuestionIndex st;
            userAnswers := <[i := answerOf sel]> (userAnswers st);
            startTime := startTime st;
            showFeedbackForSingleChoice := true;
            answerStatuses :=
              <[i := Some (verdict (includes (correctAnswer q) (answerOf sel)))]>
                (answerStatuses st);
            checkedAnswers := checkedAnswers st;
            isLoaded := isLoaded st |}).
Proof.
  intros (Hload & Hla & Hls & Hlc & Hidx & _) Hq i.
  unfold handleAnswer. rewrite Hload, Hq. cbn [negb].
  rewrite !Array_set_in_range by lia. cbn [mbind option_bind].
  by destruct (isMultiSelect (correctAnswer q)).
Qed.

Lemma handleCheckMultiAnswer_current (st : Session) (q : QuizItem)
    (a : Answer) :
  session_ok st →
  at_index (currentQuestions st) (currentQuestionIndex st) = Some q →
  at_index (userAnswers st) (currentQuestionIndex st) = Some a →
  isMultiSelect (correctAnswer q) = true →
  let i := Z.to_nat (currentQuestionIndex st) in
  handleCheckMultiAnswer (currentQuestionIndex st) st
  = Some {| currentQuestions := currentQuestions st;
            currentQuestionIndex := currentQuestionIndex st;
            userAnswers := userAnswers st;
            startTime := startTime st;
            showFeedbackForSingleChoice := false;
            answerStatuses :=
              <[i := Some (verdict (finalCorrect q (Some a)))]>
                (answerStatuses st);
            checkedAnswers := <[i := true]> (checkedAnswers st);
            isLoaded := isLoaded st |}.
Proof.
  intros (Hload & Hla & Hls & Hlc & Hidx & _) Hq Ha Hmulti i.
  unfold handleCheckMultiAnswer. rewrite Hload, Hq, Ha. cbn [negb].
  rewrite !Array_set_in_range by lia. cbn [mbind option_bind].
  unfold finalCorrect. rewrite Hmulti. by destruct a.
Qed.

Lemma moveTo_ok (st : Session) (index : Z) :
  session_ok st →
  (0 ≤ index < Z.of_nat (length (currentQuestions st)))%Z →
  (∀ i, (Z.of_nat i < index)%Z → confirmed st i) →
  session_ok (moveTo st index (answeredSingleAt st index)).
Proof.
  intros (Hload & Hla & Hls & Hlc & Hidx & Hkind & Hstat & Hfb & Hprog)
    Hindex Hconfirmed.
  unfold session_ok. cbn. repeat split; try done; try lia.
Qed.

(** The current question is confirmed when [Next] is enabled. *)
Lemma advance_enabled_confirmed (st : Session) :
  session_ok st → advanceDisabled st = false →
  confirmed st (Z.to_nat (currentQuestionIndex st)).
Proof.
  intros (Hload & Hla & Hls & Hlc & Hidx & _) Hadv.
  destruct (at_index_in_range (currentQuestions st) (currentQuestionIndex st))
    as (q & Hq & Hqi); [lia|].
  destruct (at_index_in_range (userAnswers st) (currentQuestionIndex st))
    as (a & Ha & Hai); [lia|].
  destruct (at_index_in_range (checkedAnswers st) (currentQuestionIndex st))
    as (c & Hc & Hci); [lia|].
  unfold advanceDisabled in Hadv. rewrite Hq, Ha, Hc in Hadv. cbn in Hadv.
  exists q. split; [done|].
  destruct (isMultiSelect (correctAnswer q)); cbn in Hadv.
  - by destruct c.
  - exists a. split; [done|]. intros ->. done.
Qed.

(** Every step the rendered quiz allows keeps the invariants. *)
Lemma ui_step_session_ok (st st' : Session) :
  session_ok st → ui_step st st' → session_ok st'.
Proof.
  intros Hok Hstep.
  pose proof Hok as
    (Hload & Hla & Hls & Hlc & Hidx & Hkind & Hstat & Hfb & Hprog).
  destruct Hstep as [st q value checked st' _ Hq Hdfa Hans
                    |st q st' _ Hq Hmulti Hunchecked Henabled Hcheck
                    |st q _ Hq Hlast Hadv
                    |st q _ Hq Hfirst].
  - (* an option of the current question changes *)
    rewrite (handleAnswer_current st q _ Hok Hq) in Hans.
    injection Hans as <-.
    apply at_index_lookup in Hq as [_ Hqi].
    set (i := Z.to_nat (currentQuestionIndex st)) in *.
    assert (∀ j a', userAnswers st !! j = Some a' → j = i →
                    answer_kind q a') as Hcur.
    { intros j a' Ha' ->. by apply (Hkind i). }
    destruct (isMultiSelect (correctAnswer q)) eqn:Hm;
      unfold session_ok; cbn;
      rewrite ?length_insert; repeat split; try done; try lia.
    + intros j q' a'. rewrite list_lookup_insert. case_decide as Hj.
      * destruct Hj as [<- _]. intros Hq' [= <-].
        assert (q' = q) as -> by (unfold i in *; congruence).
        apply handleOptionChange_kind. intros a0 Ha0.
        apply at_index_lookup in Ha0 as [_ Ha0]. by apply (Hkind i).
      * apply Hkind.
    + intros j q' a' s'. rewrite !list_lookup_insert.
      case_decide as Hj; case_decide as Hj'; try (exfalso; lia).
      * destruct Hj as [<- _]. intros Hq' _ [= <-].
        assert (q' = q) as -> by (unfold i in *; congruence).
        unfold status_agrees. by rewrite Hm.
      * apply Hstat.
    + unfold answeredSingleAt. cbn.
      destruct (at_index_in_range (currentQuestions st)
                  (currentQuestionIndex st)) as (q' & -> & Hq'); [lia|].
      assert (q' = q) as -> by (unfold i in *; congruence). by rewrite Hm.
    + intros j Hj. apply (confirmed_ext st); cbn; try done.
      * apply list_lookup_insert_ne. lia.
      * apply list_lookup_insert_ne. lia.
      * by apply Hprog.
    + intros j q' a'. rewrite list_lookup_insert. case_decide as Hj.
      * destruct Hj as [<- _]. intros Hq' [= <-].
        assert (q' = q) as -> by (unfold i in *; congruence).
        apply handleOptionChange_kind. intros a0 Ha0.
        apply at_index_lookup in Ha0 as [_ Ha0]. by apply (Hkind i).
      * apply Hkind.
    + intros j q' a' s'. rewrite !list_lookup_insert.
      case_decide as Hj; case_decide as Hj'; try (exfalso; lia).
      * destruct Hj as [<- _]. intros Hq' [= <-] [= <-].
        assert (q' = q) as -> by (unfold i in *; congruence).
        unfold status_agrees, handleOptionChange. by rewrite Hm.
      * apply Hstat.
    + unfold answeredSingleAt. cbn.
      destruct (at_index_in_range (currentQuestions st)
                  (currentQuestionIndex st)) as (q' & -> & Hq'); [lia|].
      assert (q' = q) as -> by (unfold i in *; congruence). rewrite Hm. cbn.
      destruct (at_index_in_range
                  (<[i := Some (verdict (includes (correctAnswer q)
                     (answerOf (handleOptionChange q
                        (at_index (userAnswers st) (currentQuestionIndex st))
                        value checked))))]> (answerStatuses st))
                  (currentQuestionIndex st)) as (s' & -> & Hs');
        [rewrite length_insert; lia|].
      fold i in Hs'. rewrite list_lookup_insert_eq in Hs' by lia.
      by injection Hs' as <-.
    + intros j Hj. apply (confirmed_ext st); cbn; try done.
      * apply list_lookup_insert_ne. lia.
      * by apply Hprog.
  - (* the answer of the current question is checked *)
    destruct (at_index_in_range (userAnswers st) (currentQuestionIndex st))
      as (a & Ha & Hai); [lia|].
    rewrite (handleCheckMultiAnswer_current st q a Hok Hq Ha Hmulti) in Hcheck.
    injection Hcheck as <-.
    apply at_index_lookup in Hq as [_ Hqi].
    set (i := Z.to_nat (currentQuestionIndex st)) in *.
    unfold session_ok; cbn. rewrite ?length_insert.
    repeat split; try done; try lia.
    + intros j q' a' s'. rewrite !list_lookup_insert.
      case_decide as Hj; [|apply Hstat].
      destruct Hj as [<- _]. intros Hq' Ha' [= <-].
      assert (q' = q) as -> by (unfold i in *; congruence).
      assert (a' = a) as -> by (unfold i in *; congruence).
      unfold status_agrees. rewrite Hmulti. by intros v [= <-].
    + unfold answeredSingleAt. cbn.
      destruct (at_index_in_range (currentQuestions st)
                  (currentQuestionIndex st)) as (q' & -> & Hq'); [lia|].
      assert (q' = q) as -> by (unfold i in *; congruence). by rewrite Hmulti.
    + intros j Hj. apply (confirmed_ext st); cbn; try done.
      * apply list_lookup_insert_ne. lia.
      * by apply Hprog.
  - (* Next *)
    unfold nextQuestion.
    destruct (currentQuestionIndex st + 1
                <? Z.of_nat (length (currentQuestions st)))%Z eqn:E;
      [|apply Z.ltb_ge in E; lia].
    apply moveTo_ok; [done|lia|].
    intros j Hj.
    destruct (decide (Z.of_nat j < currentQuestionIndex st)%Z);
      [by apply Hprog|].
    replace j with (Z.to_nat (currentQuestionIndex st)) by lia.
    by apply advance_enabled_confirmed.
  - (* Previous *)
    unfold prevQuestion.
    destruct (0 <=? currentQuestionIndex st - 1)%Z eqn:E;
      [|apply Z.leb_gt in E; lia].
    apply moveTo_ok; [done|lia|].
    intros j Hj. apply Hprog. lia.
Qed.

Lemma ui_step_keeps_questions (st st' : Session) :
  session_ok st → ui_step st st' →
  currentQuestions st' = currentQuestions st ∧ startTime st' = startTime st.
Proof.
  intros Hok Hstep.
  destruct Hstep as [st q v c st' Hl Hq Hd Ha
                    |st q st' Hl Hq Hm Hu He Hc
                    |st q Hl Hq Hlast Hadv
                    |st q Hl Hq Hfirst].
  - rewrite (handleAnswer_current st q _ Hok Hq) in Ha.
    injection Ha as <-. by destruct (isMultiSelect (correctAnswer q)).
  - unfold checkEnabled in He.
    destruct (at_index (userAnswers st) (currentQuestionIndex st)) as [a|]
      eqn:Hans; [|done].
    rewrite (handleCheckMultiAnswer_current st q a Hok Hq Hans Hm) in Hc.
    by injection Hc as <-.
  - unfold nextQuestion. by destruct (_ <? _)%Z.
  - unfold prevQuestion. by destruct (_ <=? _)%Z.
Qed.

Lemma rtc_keeps_questions (st0 st : Session) :
  session_ok st0 → rtc ui_step st0 st →
  currentQuestions st = currentQuestions st0 ∧ startTime st = startTime st0.
Proof.
  intros Hok Hsteps. induction Hsteps as [|st0 st1 st Hstep _ IH]; [done|].
  destruct (ui_step_keeps_questions _ _ Hok Hstep) as [<- <-].
  apply IH. by apply (ui_step_session_ok st0).
Qed.

Lemma session_ok_rtc (st0 st : Session) :
  session_ok st0 → rtc ui_step st0 st → session_ok st.
Proof.
  intros Hok Hsteps. induction Hsteps as [|st0 st1 st Hstep _ IH]; [done|].
  apply IH. by apply (ui_step_session_ok st0).
Qed.

(** A new session over a non-empty question list satisfies the
    invariants. *)
Lemma initialize_ok (courses : list Course) (courseId : string)
    (topicId : option string) (rng : Rng) (now : Z) :
  getQuizItems courses courseId topicId ≠ [] →
  session_ok (initialize courses courseId topicId rng now).
Proof.
  intros Hne.
  destruct (initialize_Permutation courses courseId topicId rng now)
    as (Hperm & Ha & Hc & Hi).
  set (st := initialize courses courseId topicId rng now) in *.
  assert (answerStatuses st = replicate (length (currentQuestions st)) None)
    as Hs by done.
  assert (showFeedbackForSingleChoice st = false) as Hf by done.
  assert (0 < length (currentQuestions st))%nat as Hpos.
  { rewrite Hperm. destruct (getQuizItems courses courseId topicId); [done|].
    cbn. lia. }
  unfold session_ok. rewrite Ha, Hc, Hs, Hi, Hf, !length_replicate.
  repeat split; try done; try lia.
  - intros i q a _ [-> _]%lookup_replicate. unfold answer_kind.
    destruct (isMultiSelect _); by left.
  - intros i q a s _ [-> _]%lookup_replicate [-> _]%lookup_replicate.
    unfold status_agrees. by destruct (isMultiSelect _).
  - unfold answeredSingleAt. rewrite Hs.
    destruct (at_index_in_range (currentQuestions st) 0) as (q & -> & _);
      [lia|].
    destruct (at_index_in_range
                (replicate (length (currentQuestions st)) (@None Status)) 0)
      as (s & -> & Hs0); [rewrite length_replicate; lia|].
    apply lookup_replicate in Hs0 as [-> _]. by rewrite andb_false_r.
Qed.

(** Whatever the user does in a new quiz, the session keeps one answer,
    one status and one checked flag per question, and its current index
    names one of the questions. *)
Theorem reachable_session_shape (courses : list Course) (courseId : string)
    (topicId : option string) (rng : Rng) (now : Z) (st : Session) :
  getQuizItems courses courseId topicId ≠ [] →
  reachable courses courseId topicId rng now st →
  currentQuestions st ≡ₚ getQuizItems courses courseId topicId
  ∧ length (userAnswers st) = length (currentQuestions st)
  ∧ length (answerStatuses st) = length (currentQuestions st)
  ∧ length (checkedAnswers st) = length (currentQuestions st)
  ∧ is_Some (at_index (currentQuestions st) (currentQuestionIndex st)).
Proof.
  intros Hne Hreach.
  destruct (rtc_keeps_questions _ st
              (initialize_ok courses courseId topicId rng now Hne) Hreach)
    as [Hsame _].
  pose proof (session_ok_rtc _ st
                (initialize_ok courses courseId topicId rng now Hne) Hreach)
    as (_ & Hla & Hls & Hlc & Hidx & _).
  split; [rewrite Hsame; apply initialize_Permutation|].
  repeat split; try done.
  destruct (at_index_in_range (currentQuestions st) (currentQuestionIndex st))
    as (q & -> & _); [lia|]. by eexists.
Qed.

(** The inputs of a confirmed current question are disabled. *)
Lemma confirmed_current_locked (st : Session) (q : QuizItem) :
  session_ok st →
  at_index (currentQuestions st) (currentQuestionIndex st) = Some q →
  confirmed st (Z.to_nat (currentQuestionIndex st)) →
  displayFeedbackActive q (showFeedbackForSingleChoice st) (isChecked st)
  = true.
Proof.
  intros (Hload & Hla & Hls & Hlc & Hidx & Hkind & Hstat & Hfb & Hprog)
    Hq (q' & Hq' & Hconf).
  pose proof Hq as Hq0. apply at_index_lookup in Hq0 as [_ Hqi].
  assert (q' = q) as -> by congruence.
  unfold displayFeedbackActive.
  destruct (isMultiSelect (correctAnswer q)) eqn:Hm.
  - unfold isChecked.
    destruct (at_index_in_range (checkedAnswers st) (currentQuestionIndex st))
      as (c & -> & Hc); [lia|].
    assert (c = true) as -> by congruence. cbn. apply orb_true_r.
  - destruct Hconf as (a & Ha & Hnull).
    destruct (at_index_in_range (answerStatuses st) (currentQuestionIndex st))
      as (s & Hs & Hsi); [lia|].
    pose proof (Hstat _ _ _ _ Hqi Ha Hsi) as Hagree.
    unfold status_agrees in Hagree. rewrite Hm in Hagree.
    rewrite Hfb. unfold answeredSingleAt. rewrite Hq, Hs, Hm, Hagree.
    by destruct a.
Qed.

(** A step leaves the answer and the checked flag of a confirmed question
    as they are. *)
Lemma ui_step_locked (st st' : Session) (j : nat) :
  session_ok st → confirmed st j → ui_step st st' →
  userAnswers st' !! j = userAnswers st !! j
  ∧ checkedAnswers st' !! j = checkedAnswers st !! j.
Proof.
  intros Hok Hconf Hstep.
  destruct Hstep as [st q value checked st' _ Hq Hdfa Hans
                    |st q st' _ Hq Hmulti Hunchecked Henabled Hcheck
                    |st q _ Hq Hlast Hadv
                    |st q _ Hq Hfirst].
  - rewrite (handleAnswer_current st q _ Hok Hq) in Hans.
    injection Hans as <-.
    destruct (decide (j = Z.to_nat (currentQuestionIndex st))) as [->|Hne].
    + rewrite (confirmed_current_locked st q Hok Hq Hconf) in Hdfa. done.
    + destruct (isMultiSelect (correctAnswer q)); cbn;
        by rewrite ?list_lookup_insert_ne by done.
  - destruct (at_index (userAnswers st) (currentQuestionIndex st)) as [a|]
      eqn:Ha; [|done].
    rewrite (handleCheckMultiAnswer_current st q a Hok Hq Ha Hmulti) in Hcheck.
    injection Hcheck as <-. cbn. split; [done|].
    destruct (decide (j = Z.to_nat (currentQuestionIndex st))) as [->|Hne].
    + pose proof (confirmed_current_locked st q Hok Hq Hconf) as Hact.
      unfold displayFeedbackActive in Hact.
      rewrite Hmulti, Hunchecked, andb_false_r in Hact. done.
    + by rewrite list_lookup_insert_ne by done.
  - unfold nextQuestion. by destruct (_ <? _)%Z.
  - unfold prevQuestion. by destruct (_ <=? _)%Z.
Qed.

Lemma rtc_locked (st st' : Session) (j : nat) :
  session_ok st → confirmed st j → rtc ui_step st st' →
  userAnswers st' !! j = userAnswers st !! j ∧ confirmed st' j.
Proof.
  intros Hok Hconf Hsteps.
  induction Hsteps as [|st st1 st' Hstep _ IH]; [done|].
  destruct (ui_step_locked st st1 j Hok Hconf Hstep) as [Ha Hc].
  destruct (ui_step_keeps_questions st st1 Hok Hstep) as [Hq _].
  destruct IH as [IHa IHc].
  - by apply (ui_step_session_ok st).
  - by apply (confirmed_ext st).
  - split; [congruence|done].
Qed.

Lemma finishQuiz_details (config : QuizConfig) (endTime stamp : Z)
    (st : Session) (w w' : World) (r : QuizResults) :
  finishQuiz config endTime stamp st w = Some (w', r) →
  answers r = imap (detailOf (userAnswers st)) (currentQuestions st)
  ∧ score r = correctCount (answers r).
Proof.
  unfold finishQuiz. destruct (startTime st); [|done].
  destruct (_ || _); [done|]. rewrite finishLoop_spec.
  intros [= _ <-]. cbn. split; [done|lia].
Qed.

(** The sample session is reached from a new quiz on topic [t1]: answer
    the first question, press [Next], tick two boxes of the second and
    press [Check Answer]. *)
Lemma demo_session_reachable :
  reachable demo_courses "demo" (Some "t1") (rngOf []) 1000 demo_session.
Proof.
  unfold reachable.
  eapply rtc_l.
  { eapply (ui_option _ demo_q1 "A" true); reflexivity. }
  eapply rtc_l.
  { eapply (ui_next _ demo_q1); reflexivity. }
  eapply rtc_l.
  { eapply (ui_option _ demo_q2 "B" true); reflexivity. }
  eapply rtc_l.
  { eapply (ui_option _ demo_q2 "A" true); reflexivity. }
  eapply rtc_l.
  { eapply (ui_check _ demo_q2); reflexivity. }
  apply rtc_refl.
Defined.

Lemma reachable_session_shape_witness :
  currentQuestions demo_session ≡ₚ [demo_q1; demo_q2]
  ∧ is_Some (at_index (currentQuestions demo_session)
               (currentQuestionIndex demo_session)).
Proof.
  destruct (reachable_session_shape demo_courses "demo" (Some "t1")
              (rngOf []) 1000 demo_session) as (Hperm & _ & _ & _ & Hcur).
  - done.
  - exact demo_session_reachable.
  - split; [exact Hperm|exact Hcur].
Defined.

(** A status shown during the quiz is the verdict the final scoring
    gives: whenever a question of a session reached from a new quiz has a
    cached status, the result of [finishQuiz] marks that question correct
    exactly when the status is [correct]. *)
Theorem shown_status_is_final_verdict (courses : list Course)
    (courseId : string) (topicId : option string) (rng : Rng) (now : Z)
    (st : Session) (config : QuizConfig) (endTime stamp : Z)
    (w w' : World) (r : QuizResults) (j : nat) (v : Status) :
  getQuizItems courses courseId topicId ≠ [] →
  reachable courses courseId topicId rng now st →
  finishQuiz config endTime stamp st w = Some (w', r) →
  answerStatuses st !! j = Some (Some v) →
  ∃ d, answers r !! j = Some d ∧ (isCorrect d = true ↔ v = correct).
Proof.
  intros Hne Hreach Hfin Hj.
  pose proof (session_ok_rtc _ st
                (initialize_ok courses courseId topicId rng now Hne) Hreach)
    as (_ & Hla & Hls & _ & _ & _ & Hstat & _).
  destruct (finishQuiz_details _ _ _ _ _ _ _ Hfin) as [-> _].
  pose proof (lookup_lt_Some _ _ _ Hj) as Hlt.
  destruct (lookup_lt_is_Some_2 (currentQuestions st) j) as [q Hq]; [lia|].
  destruct (lookup_lt_is_Some_2 (userAnswers st) j) as [a Ha]; [lia|].
  exists (detailOf (userAnswers st) j q). split.
  { rewrite list_lookup_imap, Hq. done. }
  pose proof (Hstat _ _ _ _ Hq Ha Hj) as Hagree.
  unfold detailOf. cbn. rewrite Ha.
  unfold status_agrees in Hagree. unfold finalCorrect in *.
  destruct (isMultiSelect (correctAnswer q)).
  - rewrite (Hagree v eq_refl). unfold verdict.
    destruct a as [| | |members]; try done.
    by destruct (exactMatch _ _).
  - destruct a; try done; injection Hagree as ->; cbn; try done.
    by destruct (existsb _ _).
Qed.

Lemma shown_status_is_final_verdict_witness :
  ∃ w' r d,
    finishQuiz demo_config 61400 61500 demo_session empty_world = Some (w', r)
    ∧ answers r !! 1%nat = Some d
    ∧ (isCorrect d = true ↔ correct = correct).
Proof.
  assert (getQuizItems demo_courses "demo" (Some "t1") ≠ []) as Hne by done.
  eexists _, _.
  destruct (shown_status_is_final_verdict demo_courses "demo" (Some "t1")
              (rngOf []) 1000 demo_session demo_config 61400 61500
              empty_world _ _ 1 correct Hne demo_session_reachable
              eq_refl eq_refl) as (d & Hd & Hiff).
  exists d. split; [reflexivity|]. split; [exact Hd|exact Hiff].
Defined.

(** [Finish Quiz] is enabled only when the quiz is complete: in a session
    reached from a new quiz, once the button is shown and enabled every
    multi-select question has been checked and every single-select
    question has a key as its answer. *)
Theorem finish_enabled_means_complete (courses : list Course)
    (courseId : string) (topicId : option string) (rng : Rng) (now : Z)
    (st : Session) (i : nat) (q : QuizItem) :
  getQuizItems courses courseId topicId ≠ [] →
  reachable courses courseId topicId rng now st →
  finishEnabled st →
  currentQuestions st !! i = Some q →
  if isMultiSelect (correctAnswer q)
  then checkedAnswers st !! i = Some true
  else ∃ key, userAnswers st !! i = Some (AStr key).
Proof.
  intros Hne Hreach (_ & _ & Hlast & Hadv) Hq.
  pose proof (session_ok_rtc _ st
                (initialize_ok courses courseId topicId rng now Hne) Hreach)
    as Hok.
  pose proof Hok as (_ & _ & _ & _ & Hidx & Hkind & _ & _ & Hprog).
  pose proof (lookup_lt_Some _ _ _ Hq) as Hlt.
  assert (confirmed st i) as (q' & Hq' & Hconf).
  { destruct (decide (Z.of_nat i < currentQuestionIndex st)%Z);
      [by apply Hprog|].
    replace i with (Z.to_nat (currentQuestionIndex st)) by lia.
    by apply advance_enabled_confirmed. }
  assert (q' = q) as -> by congruence.
  destruct (isMultiSelect (correctAnswer q)) eqn:Hm; [done|].
  destruct Hconf as (a & Ha & Hnull).
  pose proof (Hkind _ _ _ Hq Ha) as Hk. unfold answer_kind in Hk.
  rewrite Hm in Hk. destruct Hk as [->|[key ->]]; [done|]. by exists key.
Qed.

Lemma finish_enabled_means_complete_witness :
  checkedAnswers demo_session !! 1%nat = Some true.
Proof.
  apply (finish_enabled_means_complete demo_courses "demo" (Some "t1")
           (rngOf []) 1000 demo_session 1 demo_q2).
  - done.
  - exact demo_session_reachable.
  - unfold finishEnabled. cbn. repeat split; [by eexists | lia].
  - reflexivity.
Defined.

(** A confirmed answer is final: once a single-select question of a
    session reached from a new quiz has an answer, or a multi-select
    question has been checked, nothing the user can do in the quiz changes
    the answer stored for it. *)
Theorem confirmed_answer_is_final (courses : list Course)
    (courseId : string) (topicId : option string) (rng : Rng) (now : Z)
    (st st' : Session) (i : nat) :
  getQuizItems courses courseId topicId ≠ [] →
  reachable courses courseId topicId rng now st →
  confirmed st i →
  rtc ui_step st st' →
  userAnswers st' !! i = userAnswers st !! i ∧ confirmed st' i.
Proof.
  intros Hne Hreach Hconf Hsteps.
  apply rtc_locked; [|done|done].
  exact (session_ok_rtc _ st
           (initialize_ok courses courseId topicId rng now Hne) Hreach).
Qed.

Lemma confirmed_answer_is_final_witness :
  userAnswers (prevQuestion demo_session) !! 1%nat = Some (ASet ["B"; "A"]).
Proof.
  refine (proj1 (confirmed_answer_is_final demo_courses "demo" (Some "t1")
                   (rngOf []) 1000 demo_session (prevQuestion demo_session)
                   1 _ demo_session_reachable _ _)).
  - done.
  - exists demo_q2. split; reflexivity.
  - apply rtc_once. apply (ui_prev _ demo_q2); [reflexivity|reflexivity|done].
Defined.

(** [finishQuiz] never returns early in a quiz the user started: for
    every session reached from a new quiz it calls [onComplete], with one
    detail per catalog question of the quiz, a score between zero and the
    number of questions, and the duration counted from the moment the quiz
    was initialised. *)
Theorem finishQuiz_completes (courses : list Course) (courseId : string)
    (topicId : option string) (rng : Rng) (now : Z) (st : Session)
    (config : QuizConfig) (endTime stamp : Z) (w : World) :
  getQuizItems courses courseId topicId ≠ [] →
  reachable courses courseId topicId rng now st →
  ∃ w' r,
    finishQuiz config endTime stamp st w = Some (w', r)
    ∧ totalQuestions r
      = Z.of_nat (length (getQuizItems courses courseId topicId))
    ∧ length (answers r) = length (getQuizItems courses courseId topicId)
    ∧ (0 ≤ score r ≤ totalQuestions r)%Z
    ∧ duration r = round_div_1000 (endTime - now).
Proof.
  intros Hne Hreach.
  pose proof (initialize_ok courses courseId topicId rng now Hne) as Hok0.
  pose proof (session_ok_rtc _ st Hok0 Hreach) as (Hload & _ & _ & _ & Hidx & _).
  destruct (rtc_keeps_questions _ st Hok0 Hreach) as [Hqs Hstart].
  change (startTime (initialize _ _ _ _ _)) with (Some now) in Hstart.
  assert (length (currentQuestions st)
          = length (getQuizItems courses courseId topicId)) as Hlen.
  { rewrite Hqs.
    by rewrite (proj1 (initialize_Permutation courses courseId topicId
                         rng now)). }
  destruct (finishQuiz config endTime stamp st w) as [[w' r]|] eqn:Hfin.
  - exists w', r. split; [done|].
    destruct (finishQuiz_details _ _ _ _ _ _ _ Hfin) as [Hans Hscore].
    unfold finishQuiz in Hfin. rewrite Hstart in Hfin.
    destruct (_ || _); [done|].
    destruct (finishLoop _ _ _ _) as [sc details].
    injection Hfin as _ <-. cbn in *.
    split; [by rewrite Hlen|]. split; [by rewrite Hans, length_imap|].
    split; [|done]. rewrite Hscore. unfold correctCount.
    pose proof (length_filter (λ a, isCorrect a = true) details) as Hle.
    rewrite Hans, length_imap in Hle. rewrite Hans. lia.
  - unfold finishQuiz in Hfin. rewrite Hstart, Hload in Hfin.
    destruct (length (currentQuestions st)) eqn:E; [lia|].
    cbn in Hfin. by destruct (finishLoop _ _ _ _).
Qed.

Lemma finishQuiz_completes_witness :
  ∃ w' r,
    finishQuiz demo_config 61400 61500 demo_session empty_world = Some (w', r)
    ∧ totalQuestions r = 2
    ∧ duration r = 60.
Proof.
  destruct (finishQuiz_completes demo_courses "demo" (Some "t1") (rngOf [])
              1000 demo_session demo_config 61400 61500 empty_world)
    as (w' & r & Hfin & Htotal & _ & _ & Hduration).
  - done.
  - exact demo_session_reachable.
  - exists w', r. split; [exact Hfin|]. split; [exact Htotal|exact Hduration].
Defined.

End SessionFacts.

(** * The shuffle utility *)

Section ShuffleUtility.

Import Shuffle.

Context {A : Type}.

Lemma shuffle_loop_calls (rng : Rng) (currentIndex : nat) :
  ∀ (result : list A) (calls : nat),
    (shuffle_loop rng currentIndex result calls).2
    = (calls + currentIndex)%nat.
Proof.
  induction currentIndex as [|next IH]; intros result calls.
  - cbn. lia.
  - cbn [shuffle_loop]. unfold bind, Math_random. rewrite IH. lia.
Qed.

Lemma shuffle_loop_length (rng : Rng) (currentIndex : nat) :
  ∀ (result : list A) (calls : nat),
    length (shuffle_loop rng currentIndex result calls).1 = length result.
Proof.
  induction currentIndex as [|next IH]; intros result calls; [done|].
  cbn [shuffle_loop]. unfold bind, Math_random.
  by rewrite IH, length_swap.
Qed.

(** [shuffleArray] returns a rearrangement of its argument and reads
    [Math.random()] once per element; when the argument has no repeated
    element, neither has the result.  The random source returns numbers
    in [[0, 1)], so the index drawn at each pass, the [k]-th pass working
    on the first [length array - k] positions, lies among those
    positions. *)
Theorem shuffleArray_rearranges (rng : Rng) (array : list A) (calls : nat) :
  (∀ n, (0 <= rng n)%Q ∧ (rng n < 1)%Q) →
  (shuffleArray rng array calls).1 ≡ₚ array
  ∧ length (shuffleArray rng array calls).1 = length array
  ∧ (shuffleArray rng array calls).2 = (calls + length array)%nat
  ∧ (NoDup array → NoDup (shuffleArray rng array calls).1)
  ∧ (∀ k, (k < length array)%nat →
          (Z.to_nat (Qfloor (rng (calls + k)%nat
                             * inject_Z (Z.of_nat (length array - k))))
           < length array - k)%nat).
Proof.
  intros Hrng. unfold shuffleArray.
  pose proof (shuffle_loop_Permutation rng (length array) array calls)
    as Hperm.
  split; [done|]. split; [apply shuffle_loop_length|].
  split; [apply shuffle_loop_calls|].
  split; [intros Hnd; by rewrite Hperm|].
  intros k Hk. destruct (Hrng (calls + k)%nat) as [Hlo Hhi].
  apply randomIndex_in_range; [done|done|lia].
Qed.

End ShuffleUtility.

Lemma shuffleArray_rearranges_witness :
  (Shuffle.shuffleArray (rngOf []) three_questions 0%nat).1 ≡ₚ three_questions
  ∧ (Shuffle.shuffleArray (rngOf []) three_questions 0%nat).2 = 3%nat.
Proof.
  destruct (shuffleArray_rearranges (rngOf []) three_questions 0%nat)
    as (Hperm & _ & Hcalls & _).
  - intros n. unfold rngOf. destruct n; cbn; split; done.
  - split; [exact Hperm|exact Hcalls].
Defined.

(** * Leaving a quiz and coming back *)

Section ReloadFacts.

Import Quiz QuestionView Handlers.

Local Arguments isMultiSelect : simpl never.

(** A question of a course is found again by its id when no two
    questions of the course have ids with the same text. *)
Lemma Array_find_own_id (items : list QuizItem) (q : QuizItem) :
  NoDup (String_ ∘ id <$> items) → q ∈ items →
  Array_find (λ item, String.eqb (String_ (id item)) (String_ (id q))) items
  = Some q.
Proof.
  induction items as [|x items IH]; intros Hnd Hin; [by inversion Hin|].
  rewrite fmap_cons in Hnd. apply NoDup_cons in Hnd as [Hx Hnd].
  cbn [Array_find]. apply elem_of_cons in Hin as [->|Hin].
  - by rewrite String.eqb_refl.
  - destruct (String.eqb _ _) eqn:E; [|by apply IH].
    apply String.eqb_eq in E. exfalso. apply Hx.
    change ((String_ ∘ id) x) with (String_ (id x)). rewrite E.
    apply list_elem_of_fmap. by exists q.
Qed.

Lemma getQuizItems_subset (courses : list Course) (courseId : string)
    (topicId : option string) (course : Course) (q : QuizItem) :
  getCourseById courses (Some courseId) = Some course →
  q ∈ getQuizItems courses courseId topicId → q ∈ quizItems course.
Proof.
  intros Hc. unfold getQuizItems. rewrite Hc.
  destruct topicId as [t|]; [|done].
  destruct (String.eqb t ""); [done|].
  by intros [_ ?]%list_elem_of_filter.
Qed.

Lemma getQuestionById_own_id (courses : list Course) (courseId : string)
    (course : Course) (q : QuizItem) :
  getCourseById courses (Some courseId) = Some course →
  NoDup (String_ ∘ id <$> quizItems course) →
  q ∈ quizItems course →
  getQuestionById courses (Some courseId) (id q) = Some q.
Proof.
  intros Hc Hnd Hin. unfold getQuestionById. rewrite Hc.
  destruct (String.eqb courseId "") eqn:E.
  - unfold getCourseById in Hc. by rewrite E in Hc.
  - by apply Array_find_own_id.
Qed.

(** The questions of a quiz are the catalog's questions for their ids:
    when the ids of the course's questions are pairwise distinct as
    texts, [getQuestionById] finds each question [getQuizItems] lists. *)
Theorem getQuestionById_of_quiz_item (courses : list Course)
    (courseId : string) (topicId : option string) (course : Course)
    (q : QuizItem) :
  getCourseById courses (Some courseId) = Some course →
  NoDup (String_ ∘ id <$> quizItems course) →
  q ∈ getQuizItems courses courseId topicId →
  getQuestionById courses (Some courseId) (id q) = Some q.
Proof.
  intros Hc Hnd Hq. apply (getQuestionById_own_id _ _ course); [done..|].
  by apply (getQuizItems_subset courses courseId topicId).
Qed.

Lemma getQuestionById_of_quiz_item_witness :
  getQuestionById demo_courses (Some "demo") (id demo_q2) = Some demo_q2.
Proof.
  apply (getQuestionById_of_quiz_item demo_courses "demo" (Some "t1")
           demo_course demo_q2).
  - reflexivity.
  - refine (bool_decide_unpack _ _). vm_compute. exact I.
  - apply list_elem_of_In. vm_compute. right. left. reflexivity.
Defined.






End ReloadFacts.

(** * Adding a result twice *)

Section ReinsertFacts.

Context {A : Type} (key : A → Z) (keep : A → Prop) `{∀ x, Decision (keep x)}.

Let byKey (a b : A) : comparison := (key a - key b ?= 0)%Z.
Let le_key (a b : A) : Prop := (key a ≤ key b)%Z.

Lemma filter_insert_sorted (x : A) (l : list A) :
  ¬ keep x → Forall keep l → filter keep (insert_sorted byKey x l) = l.
Proof.
  intros Hx. induction 1 as [|y l Hy Hall IH].
  - cbn [insert_sorted]. by rewrite filter_cons, decide_False.
  - cbn [insert_sorted]. destruct (byKey x y).
    + rewrite filter_cons, decide_False by done.
      apply filter_all. by constructor.
    + rewrite filter_cons, decide_False by done.
      apply filter_all. by constructor.
    + by rewrite filter_cons, decide_True, IH.
Qed.

Lemma StronglySorted_filter (R : A → A → Prop) (l : list A) :
  StronglySorted R l → StronglySorted R (filter keep l).
Proof.
  induction 1 as [|y l Hsorted IH Hall]; [constructor|].
  rewrite filter_cons. destruct (decide (keep y)); [|done].
  constructor; [done|]. apply Forall_forall. intros z Hz.
  apply list_elem_of_filter in Hz as [_ Hz].
  by apply (proj1 (Forall_forall _ _) Hall).
Qed.

(** Dropping [x] from the last [k] of a sorted list with [x] inserted,
    inserting it again and cutting to the last [k] changes nothing. *)
Lemma reinsert_slice (k : nat) (x : A) (l : list A) :
  StronglySorted le_key l → ¬ keep x → Forall keep l →
  Forall (λ y, key y ≠ key x) l →
  slice_last k
    (insert_sorted byKey x
       (filter keep (slice_last k (insert_sorted byKey x l))))
  = slice_last k (insert_sorted byKey x l).
Proof.
  intros Hsorted Hx. induction Hsorted as [|y l Hsorted IH Hall];
    intros Hkeep Hne.
  - cbn [insert_sorted]. destruct k; [done|].
    rewrite (slice_last_short (S k) [x]) by (cbn; lia).
    by rewrite filter_cons, decide_False.
  - apply Forall_cons in Hkeep as [Hy Hkeep].
    apply Forall_cons in Hne as [Hyx Hne].
    destruct (Z_lt_le_dec (key y) (key x)) as [Hlt|Hle].
    + rewrite (insert_cons_gt key) by done.
      destruct (decide (k ≤ S (length l))%nat) as [Hk|Hk].
      * rewrite slice_last_cons
          by (by rewrite (length_insert_sorted key)).
        by apply IH.
      * rewrite (slice_last_short k (y :: _))
          by (cbn [length]; rewrite (length_insert_sorted key); lia).
        rewrite filter_cons, decide_True by done.
        rewrite filter_insert_sorted by done.
        rewrite (insert_cons_gt key) by done.
        apply slice_last_short. cbn [length].
        rewrite (length_insert_sorted key). lia.
    + rewrite (insert_cons_le key) by done.
      destruct (decide (k ≤ S (length l))%nat) as [Hk|Hk].
      * rewrite (slice_last_cons k x (y :: l)) by done.
        assert (length (slice_last k (y :: l)) = k) as Hlen
          by (rewrite length_slice_last; cbn [length]; lia).
        rewrite filter_all
          by (unfold slice_last; apply Forall_drop; by constructor).
        rewrite (insert_head key).
        -- rewrite slice_last_cons by lia. apply slice_last_short. lia.
        -- unfold slice_last. apply Forall_drop. constructor; [done|].
           eapply Forall_impl; [exact Hall|]. intros z Hz.
           unfold le_key in *. lia.
      * rewrite (slice_last_short k (x :: y :: l)) by (cbn [length]; lia).
        rewrite filter_cons, decide_False by done.
        rewrite filter_all by (by constructor).
        rewrite (insert_cons_le key) by done.
        apply slice_last_short. cbn [length]. lia.
Qed.

End ReinsertFacts.

Section HistoryInvariants.

Import History.

Lemma sortKey_ne (e a : QuizResults) :
  is_Some (timestamp e) → is_Some (timestamp a) →
  timestamp e ≠ timestamp a → sortKey e ≠ sortKey a.
Proof.
  intros [t Ht] [t' Ht'] Hne. unfold sortKey. rewrite Ht, Ht' in *. cbn.
  congruence.
Qed.

Lemma elem_of_slice_last {A} (k : nat) (l : list A) (x : A) :
  x ∈ slice_last k l → x ∈ l.
Proof.
  unfold slice_last. intros Hx.
  rewrite <- (take_drop (length l - k) l). apply elem_of_app. by right.
Qed.

(** Adding the same result twice is the same as adding it once: applied
    again with the same result and clock, [handleAddResult] returns the
    history it was given.  The entries of the history carry numeric
    timestamps, as every entry [handleAddResult] adds does. *)
Theorem handleAddResult_idempotent (now : Z) (r : QuizResults)
    (history : list QuizResults) :
  Forall (λ e, is_Some (timestamp e)) history →
  handleAddResult now r (handleAddResult now r history)
  = handleAddResult now r history.
Proof.
  intros Hnum. rewrite !handleAddResult_unfold.
  set (a := resultToAdd now r).
  set (keep := λ e : QuizResults, timestamp e ≠ timestamp a).
  assert (is_Some (timestamp a)) as Ha by (by eexists).
  assert (¬ keep a) as Hdrop by (intros Hk; by apply Hk).
  assert (∀ l, Forall (λ e, is_Some (timestamp e)) l →
               Forall (λ y, sortKey y ≠ sortKey a) (filter keep l)) as Hkeys.
  { intros l Hl. apply Forall_forall. intros e He.
    apply list_elem_of_filter in He as [Hk He].
    apply sortKey_ne; [|done|done].
    by apply (proj1 (Forall_forall _ _) Hl). }
  assert (Forall keep (filter keep history)) as Hkept.
  { apply Forall_forall. by intros e [? _]%list_elem_of_filter. }
  change byTimestamp with (λ x y, (sortKey x - sortKey y ?= 0)%Z).
  rewrite (Array_sort_snoc sortKey (filter keep history) a (Hkeys _ Hnum)).
  pose proof (Array_sort_Permutation sortKey (filter keep history)) as Hperm.
  pose proof (Array_sort_StronglySorted sortKey (filter keep history))
    as Hsorted.
  set (K := Array_sort (λ x y, (sortKey x - sortKey y ?= 0)%Z)
              (filter keep history)) in *.
  assert (Forall keep K) as HkeepK by (by rewrite Hperm).
  assert (Forall (λ y, sortKey y ≠ sortKey a) K) as HneK
    by (rewrite Hperm; by apply Hkeys).
  set (once := slice_last 50
                 (insert_sorted (λ x y, (sortKey x - sortKey y ?= 0)%Z) a K)).
  assert (Forall (λ y, sortKey y ≠ sortKey a) (filter keep once)) as HneX.
  { apply Forall_forall. intros e He.
    apply list_elem_of_filter in He as [Hk He].
    apply elem_of_slice_last in He.
    rewrite (insert_Permutation sortKey) in He.
    apply elem_of_cons in He as [->|He]; [done|].
    by apply (proj1 (Forall_forall _ _) HneK). }
  rewrite (Array_sort_snoc sortKey (filter keep once) a HneX).
  rewrite (Array_sort_sorted_id sortKey (filter keep once)).
  - by apply (reinsert_slice sortKey keep 50 a K).
  - apply StronglySorted_filter, (slice_last_StronglySorted sortKey).
    by apply (insert_StronglySorted sortKey).
Qed.

Lemma handleAddResult_idempotent_witness :
  handleAddResult 0 (resultAt 5 1)
    (handleAddResult 0 (resultAt 5 1) [resultAt 9 2; resultAt 5 0])
  = [resultAt 5 1; resultAt 9 2].
Proof.
  rewrite (handleAddResult_idempotent 0 (resultAt 5 1)
             [resultAt 9 2; resultAt 5 0]).
  - reflexivity.
  - repeat constructor; by eexists.
Defined.

(** The history never holds two results with the same timestamp once it
    holds none: [handleAddResult] keeps timestamps pairwise distinct and
    numeric, and every entry of the new history is the added result or an
    entry of the old one. *)
Theorem handleAddResult_timestamps_distinct (now : Z) (r : QuizResults)
    (history : list QuizResults) :
  NoDup (timestamp <$> history) →
  NoDup (timestamp <$> handleAddResult now r history)
  ∧ (Forall (λ e, is_Some (timestamp e)) history →
     Forall (λ e, is_Some (timestamp e)) (handleAddResult now r history))
  ∧ (∀ e, e ∈ handleAddResult now r history →
          e = resultToAdd now r ∨ e ∈ history).
Proof.
  intros Hnd. rewrite handleAddResult_unfold.
  set (a := resultToAdd now r).
  set (keep := λ e : QuizResults, timestamp e ≠ timestamp a).
  assert (∀ e, e ∈ slice_last 50
                     (Array_sort byTimestamp (filter keep history ++ [a])) →
               e = a ∨ (e ∈ history ∧ keep e)) as Hfrom.
  { intros e He. apply elem_of_slice_last in He.
    change byTimestamp with (λ x y, (sortKey x - sortKey y ?= 0)%Z) in He.
    rewrite (Array_sort_Permutation sortKey) in He.
    apply elem_of_app in He as [He|He].
    - right. by apply list_elem_of_filter in He as [? ?].
    - left. by apply list_elem_of_singleton in He. }
  split; [|split].
  - unfold slice_last. rewrite fmap_drop.
    refine (sublist_NoDup _ _ _ (sublist_drop _ _)).
    change byTimestamp with (λ x y, (sortKey x - sortKey y ?= 0)%Z).
    rewrite (Array_sort_Permutation sortKey), fmap_app.
    apply NoDup_app. split; [|split].
    + refine (sublist_NoDup _ _ Hnd _).
      apply fmap_sublist, sublist_filter.
    + intros t Ht Hta. apply list_elem_of_singleton in Hta as ->.
      apply list_elem_of_fmap in Ht as (e & Heq & He).
      apply list_elem_of_filter in He as [Hk _]. by apply Hk.
    + apply NoDup_singleton.
  - intros Hnum. apply Forall_forall. intros e He.
    destruct (Hfrom e He) as [->|[Hin _]]; [by eexists|].
    by apply (proj1 (Forall_forall _ _) Hnum).
  - intros e He. destruct (Hfrom e He) as [->|[Hin _]]; [by left|by right].
Qed.

Lemma handleAddResult_timestamps_distinct_witness :
  NoDup (timestamp <$>
           handleAddResult 0 (resultAt 5 1) [resultAt 9 2; resultAt 5 0]).
Proof.
  apply (handleAddResult_timestamps_distinct 0 (resultAt 5 1)
           [resultAt 9 2; resultAt 5 0]).
  refine (bool_decide_unpack _ _). vm_compute. exact I.
Defined.

End HistoryInvariants.

(** * Resuming from any valid saved state *)

Section ResumeShape.

Import Quiz.

Lemma omap_all_found {A B} (f : A → option B) (l : list A) :
  Forall (λ x, is_Some (f x)) l →
  length (omap f l) = length l ∧ ∀ i, omap f l !! i = l !! i ≫= f.
Proof.
  induction 1 as [|x l [y Hy] Hall [IHlen IH]]; [done|].
  cbn [omap list_omap]. rewrite Hy. split; [cbn; by rewrite IHlen|].
  intros [|i]; cbn; [done|apply IH].
Qed.

(** Resuming keeps the session's arrays aligned when every saved question
    id is still in the catalog: for a saved state with one answer per
    question id (which [loadQuizState] checks), the resumed session has the
    catalog's question for each saved id, in the saved order, and one
    answer, one status and one checked flag per question; when the saved
    index is not negative, its current index names one of the questions. *)
Theorem resume_aligned (courses : list Course) (courseId : string)
    (saved : SavedQuizState) (now : Z) :
  length (Types.userAnswers saved) = length (Types.questionIds saved) →
  Forall (λ qid, is_Some (getQuestionById courses (Some courseId) qid))
         (Types.questionIds saved) →
  let st := resume courses courseId saved now in
  (∀ i, currentQuestions st !! i
        = Types.questionIds saved !! i
            ≫= getQuestionById courses (Some courseId))
  ∧ length (currentQuestions st) = length (Types.questionIds saved)
  ∧ length (userAnswers st) = length (Types.questionIds saved)
  ∧ length (answerStatuses st) = length (Types.questionIds saved)
  ∧ length (checkedAnswers st) = length (Types.questionIds saved)
  ∧ isLoaded st = true
  ∧ ((0 ≤ Types.currentIndex saved)%Z → Types.questionIds saved ≠ [] →
     is_Some (at_index (currentQuestions st) (currentQuestionIndex st))).
Proof.
  intros Hlen Hfound st.
  destruct (omap_all_found
              (λ qid : ident, getQuestionById courses (Some courseId) qid)
              _ Hfound) as [Hqlen Hlookup].
  fold (loadedQuestionsOf courses courseId saved) in Hqlen, Hlookup.
  assert (currentQuestions st = loadedQuestionsOf courses courseId saved)
    as Hqs by done.
  split; [intros i; rewrite Hqs; exact (Hlookup i)|].
  split; [by rewrite Hqs|].
  split; [unfold st, resume; cbn; by rewrite length_imap|].
  split; [unfold st, resume; cbn; by rewrite !length_imap|].
  split.
  { unfold st, resume. cbn [checkedAnswers]. rewrite <- Hqlen.
    destruct (Types.checkedAnswers saved) as [flags|];
      [|by rewrite length_replicate].
    destruct (length flags =? _)%nat eqn:E;
      [by apply Nat.eqb_eq in E|by rewrite length_replicate]. }
  split; [done|].
  intros Hnonneg Hne.
  assert (0 < length (Types.questionIds saved))%nat as Hpos
    by (destruct (Types.questionIds saved); [done|cbn; lia]).
  pose proof (resume_index_in_range courses courseId saved now Hnonneg Hpos)
    as Hidx.
  fold st in Hidx. unfold at_index.
  destruct (currentQuestionIndex st <? 0)%Z eqn:E;
    [apply Z.ltb_lt in E; lia|].
  apply lookup_lt_is_Some_2. rewrite Hqs, Hqlen. lia.
Qed.

Lemma resume_aligned_witness :
  length (userAnswers (resume demo_courses "demo" demo_saved 5000)) = 2%nat
  ∧ is_Some (at_index
               (currentQuestions (resume demo_courses "demo" demo_saved 5000))
               (currentQuestionIndex
                  (resume demo_courses "demo" demo_saved 5000))).
Proof.
  destruct (resume_aligned demo_courses "demo" demo_saved 5000)
    as (_ & _ & Hanswers & _ & _ & _ & Hcurrent).
  - reflexivity.
  - repeat constructor; by eexists.
  - split; [exact Hanswers|]. apply Hcurrent; [done|discriminate].
Defined.

End ResumeShape.

(** * What the selection page is told about a quiz *)

Section ListingFacts.

Import Index.

(** The key of a quiz of a catalog course is one the bulk load visits:
    the whole-course quiz always, a topic quiz when the topic is one of the
    course's non-empty topics. *)
Lemma getQuizStateKey_managed (courses : list Course) (course : Course)
    (config : QuizConfig) (key : string) :
  course ∈ courses →
  Identity.courseId config = course_id course →
  (∀ t, Identity.topicId config = Some t → t ∈ topics course ∧ t ≠ "") →
  getQuizStateKey (Some config) = Some key →
  key ∈ managedKeys courses.
Proof.
  intros Hcourse Hid Htopic Hkey. unfold managedKeys.
  apply list_elem_of_bind. exists course. split; [|done].
  unfold courseKeys. apply elem_of_app.
  destruct (Identity.topicId config) as [t|] eqn:Ht.
  - right. destruct (Htopic t eq_refl) as [Hin Hne].
    apply list_elem_of_omap. exists t. split; [done|].
    unfold topicKey. apply String_eqb_false in Hne. rewrite Hne.
    rewrite <- Hkey. unfold getQuizStateKey. cbn. by rewrite Hid, Ht.
  - left. unfold fullKey. replace (getQuizStateKey _) with (Some key).
    + apply list_elem_of_here.
    + rewrite <- Hkey. unfold getQuizStateKey. cbn. by rewrite Hid, Ht.
Qed.

(** A quiz saved in progress is listed by the next bulk load, and a quiz
    whose state was cleared is not.  For a quiz of a catalog course (the
    whole course, or one of its non-empty topics), after
    [saveQuizState(config, s)] the map [loadAllStatesFromStorage] returns
    has an entry under the quiz's key whose [currentIndex] is that of [s],
    and the pass leaves the stored text in place; after
    [saveQuizState(config, null)] the map has no entry under the key. *)
Theorem saved_quiz_is_listed (courses : list Course) (course : Course)
    (config : QuizConfig) (s : SavedQuizState) (w : World) (key : string) :
  window_defined w = true →
  course ∈ courses →
  Identity.courseId config = course_id course →
  (∀ t, Identity.topicId config = Some t → t ∈ topics course ∧ t ≠ "") →
  getQuizStateKey (Some config) = Some key →
  (∃ parsed,
     (loadAllStatesFromStorage courses
        (saveQuizState config (Some s) w)).2 !! key = Some parsed
     ∧ prop parsed "currentIndex" = Some (JNum (currentIndex s))
     ∧ localStorage
         (loadAllStatesFromStorage courses
            (saveQuizState config (Some s) w)).1 !! key
       = localStorage (saveQuizState config (Some s) w) !! key)
  ∧ (loadAllStatesFromStorage courses
       (saveQuizState config None w)).2 !! key = None.
Proof.
  intros Hwin Hcourse Hid Htopic Hkey.
  pose proof (getQuizStateKey_managed _ _ _ _ Hcourse Hid Htopic Hkey)
    as Hmanaged.
  split.
  - destruct (saveQuizState_writes config s w key Hwin Hkey)
      as (Hwin1 & Hstored & _).
    pose proof (loadAllStatesFromStorage_lookup courses
                  (saveQuizState config (Some s) w) key Hwin1) as Hlook.
    destruct (loadAllStatesFromStorage courses
                (saveQuizState config (Some s) w)) as [w2 loaded].
    destruct Hlook as (Hstore & Hloaded & _).
    rewrite decide_True in Hstore by done.
    rewrite decide_True in Hloaded by done.
    rewrite Hstored in Hstore, Hloaded. cbn in Hstore, Hloaded.
    eexists. split; [exact Hloaded|]. split; [done|].
    cbn. by rewrite Hstore, Hstored.
  - assert (window_defined (saveQuizState config None w) = true
            ∧ localStorage (saveQuizState config None w) !! key = None)
      as [Hwin1 Hgone].
    { unfold saveQuizState. rewrite Hkey, Hwin. cbn.
      split; [done|apply lookup_delete_eq]. }
    pose proof (loadAllStatesFromStorage_lookup courses
                  (saveQuizState config None w) key Hwin1) as Hlook.
    destruct (loadAllStatesFromStorage courses (saveQuizState config None w))
      as [w2 loaded].
    destruct Hlook as (_ & Hloaded & _).
    rewrite decide_True in Hloaded by done. cbn.
    by rewrite Hloaded, Hgone.
Qed.

Lemma saved_quiz_is_listed_witness :
  (∃ parsed,
     (loadAllStatesFromStorage demo_courses
        (saveQuizState demo_config (Some demo_saved) empty_world)).2
       !! "quizState_demo_t1" = Some parsed
     ∧ prop parsed "currentIndex" = Some (JNum 1))
  ∧ (loadAllStatesFromStorage demo_courses
       (saveQuizState demo_config None
          (saveQuizState demo_config (Some demo_saved) empty_world))).2
      !! "quizState_demo_t1" = None.
Proof.
  assert (demo_course ∈ demo_courses) as Hcourse by apply list_elem_of_here.
  assert (∀ t, Identity.topicId demo_config = Some t →
               t ∈ topics demo_course ∧ t ≠ "") as Htopic.
  { intros t [= <-]. split; [apply list_elem_of_here|discriminate]. }
  split.
  - destruct (proj1 (saved_quiz_is_listed demo_courses demo_course
                       demo_config demo_saved empty_world
                       "quizState_demo_t1" eq_refl Hcourse eq_refl Htopic
                       eq_refl)) as (parsed & Hlisted & Hindex & _).
    exists parsed. split; [exact Hlisted|exact Hindex].
  - exact (proj2 (saved_quiz_is_listed demo_courses demo_course
                    demo_config demo_saved
                    (saveQuizState demo_config (Some demo_saved) empty_world)
                    "quizState_demo_t1" eq_refl Hcourse eq_refl Htopic
                    eq_refl)).
Defined.

End ListingFacts.

(** * From finishing a quiz to the history *)

Section CompletionFacts.

Import Quiz History Pages.

Lemma insert_sorted_last {A} (key : A → Z) (x : A) (l : list A) :
  Forall (λ y, (key y < key x)%Z) l →
  insert_sorted (λ a b, (key a - key b ?= 0)%Z) x l = l ++ [x].
Proof.
  induction 1 as [|y l Hy Hall IH]; [done|].
  by rewrite (insert_cons_gt key), IH.
Qed.

(** The attempt just finished becomes the newest entry of the history.
    When [finishQuiz] has called [onComplete] with a result stamped later
    than every entry of the history, each entry carrying a numeric
    timestamp, the results page's mount effect adds
    that very result: the new history is the old one in ascending order
    with the result appended, cut to its last fifty entries, so the result
    is its last entry. *)
Theorem finished_attempt_is_newest (config : QuizConfig)
    (endTime stamp now : Z) (st : Session) (w w' : World) (r : QuizResults)
    (history : list QuizResults) :
  finishQuiz config endTime stamp st w = Some (w', r) →
  Forall (λ e, ∃ t, timestamp e = Some t ∧ (t < stamp)%Z) history →
  addResultOnMount (Some r) now history
  = slice_last 50 (Array_sort byTimestamp history ++ [r])
  ∧ last (addResultOnMount (Some r) now history) = Some r.
Proof.
  intros Hfin Hnumeric.
  assert (Forall (λ e, (sortKey e < stamp)%Z) history) as Hold.
  { eapply Forall_impl; [exact Hnumeric|]. intros e (t & Ht & Hlt).
    unfold sortKey. by rewrite Ht. }
  assert (timestamp r = Some stamp) as Hstamp.
  { unfold finishQuiz in Hfin. destruct (startTime st); [|done].
    destruct (_ || _); [done|]. destruct (finishLoop _ _ _ _).
    by injection Hfin as _ <-. }
  assert (addResultOnMount (Some r) now history
          = slice_last 50 (Array_sort byTimestamp history ++ [r])) as Heq.
  { unfold addResultOnMount. rewrite Hstamp, handleAddResult_unfold.
    rewrite resultToAdd_numeric by (by eexists).
    assert (Forall (λ e, sortKey e ≠ sortKey r) history) as Hne.
    { eapply Forall_impl; [exact Hold|]. intros e He.
      cbn beta in He. unfold sortKey at 2. rewrite Hstamp. cbn. lia. }
    rewrite filter_all.
    2:{ eapply Forall_impl; [exact Hold|]. intros e He Heq.
        cbn beta in He. unfold sortKey in He. rewrite Heq, Hstamp in He. cbn in He. lia. }
    change byTimestamp with (λ x y, (sortKey x - sortKey y ?= 0)%Z).
    rewrite (Array_sort_snoc sortKey history r Hne).
    rewrite insert_sorted_last; [done|].
    rewrite (Array_sort_Permutation sortKey).
    eapply Forall_impl; [exact Hold|]. intros e He.
    cbn beta in He. unfold sortKey at 2. rewrite Hstamp. cbn. lia. }
  split; [exact Heq|]. rewrite Heq. unfold slice_last.
  rewrite drop_app_le by (rewrite length_app; cbn; lia).
  apply last_snoc.
Qed.

Lemma finished_attempt_is_newest_witness :
  ∃ w' r,
    finishQuiz demo_config 61400 61500 demo_session empty_world = Some (w', r)
    ∧ last (addResultOnMount (Some r) 70000 [resultAt 9 2; resultAt 5 0])
      = Some r.
Proof.
  eexists _, _. split; [reflexivity|].
  refine (proj2 (finished_attempt_is_newest demo_config 61400 61500 70000
                   demo_session empty_world _ _
                   [resultAt 9 2; resultAt 5 0] eq_refl _)).
  repeat constructor; eexists; (split; [reflexivity|lia]).
Defined.

End CompletionFacts.
